(** * nav2_driver: turtle-protocol client, odometry integrator and
    reconnecting driver

  A shallow embedding of [nav2remote.cpp] / [nav2remote.h] (class
  [Nav2Remote]) and of the driver node (class [Nav2Driver] with its nested
  [Pose2D] and [BaseOdometry]), followed by the properties of the
  specification that were checked against it.

  - C [double] is IEEE-754 binary64: the kernel's primitive [float], so
    every arithmetic step rounds exactly as the compiled program does.
  - The C library calls the code makes ([sprintf] with [%lf], [sscanf] with
    [%lf] and [%d], [read], [write], [realloc], [usleep]) are modelled in
    [CLib] and in the [World] record, which plays the part of the operating
    system, the network peer and the ROS runtime.
  - Methods are functions in a small monad over [World] whose outcomes are
    a normal return, a C++ exception, or undefined behaviour. *)

From Stdlib Require Import ZArith PrimFloat SpecFloat FloatOps.
From Stdlib Require Import Strings.String Strings.Ascii DecimalString List Lia.
From stdpp Require Import base list strings.

Set Warnings "-inexact-float".
Local Open Scope Z_scope.

(** ** The C library *)

Module CLib.

Definition NUL : ascii := "000"%char.
Definition LF : ascii := "010"%char.
Definition CR : ascii := "013"%char.

(** ["\n"] as a one-character string. *)
Definition nl : string := String LF EmptyString.

(** [M_PI] of <cmath>: 3.14159265358979323846 rounded to binary64. *)
Definition M_PI : float := 0x1.921fb54442d18p+1%float.

(** Conversion of a C [int] to [double] (exact on the whole [int] range). *)
Definition double_of_int (z : Z) : float :=
  if z <? 0 then PrimFloat.opp (of_uint63 (Uint63Axioms.of_Z (- z)))
  else of_uint63 (Uint63Axioms.of_Z z).

Definition int_min : Z := - 2 ^ 31.
Definition int_max : Z := 2 ^ 31 - 1.
Definition fits_int (z : Z) : bool := (int_min <=? z) && (z <=? int_max).

(** *** [printf]'s [%lf]

    [%lf] prints a double in fixed notation with six digits after the
    point, the exact binary value rounded to nearest, ties to even.  The
    primitive float has one NaN without a sign bit, so a NaN is printed
    without sign. *)

Definition round_half_even (num den : Z) : Z :=
  let q := num / den in
  match 2 * (num mod den) ?= den with
  | Lt => q
  | Eq => if Z.even q then q else q + 1
  | Gt => q + 1
  end.

Definition dec_of_Z (n : Z) : string :=
  NilZero.string_of_uint (N.to_uint (Z.to_N n)).

Fixpoint zero_pad (width : nat) (s : string) : string :=
  if (width <=? String.length s)%nat then s
  else match width with
       | O => s
       | S w => String "0" (zero_pad w s)
       end.

Definition fixed_digits (p : nat) (scaled : Z) : string :=
  let unit := 10 ^ Z.of_nat p in
  dec_of_Z (scaled / unit) +:+ "." +:+ zero_pad p (dec_of_Z (scaled mod unit)).

Definition sign_prefix (s : bool) : string := if s then "-" else EmptyString.

Definition printf_f (p : nat) (v : float) : string :=
  match Prim2SF v with
  | S754_nan => "nan"
  | S754_infinity s => sign_prefix s +:+ "inf"
  | S754_zero s => sign_prefix s +:+ fixed_digits p 0
  | S754_finite s m e =>
      let unit := 10 ^ Z.of_nat p in
      let scaled :=
        if 0 <=? e then Z.pos m * 2 ^ e * unit
        else round_half_even (Z.pos m * unit) (2 ^ (- e)) in
      sign_prefix s +:+ fixed_digits p scaled
  end.

Definition printf_lf : float -> string := printf_f 6.

(** *** [sscanf]'s [%lf] and [%d]

    Both directives skip leading white space, so the blanks between the
    directives of ["%lf %lf %lf %d"] add nothing.  [%lf] is modelled as the
    GNU C library does it: the longest run of characters that can begin a
    number is taken from the input (a sign; then [nan], [inf] or
    [infinity] in either case, or a decimal number, or a hexadecimal one
    after [0x]; an exponent letter and its sign are taken even when no
    digit follows them), and [strtod] converts what was taken, rounding to
    the nearest double, ties to even.  The directive fails when nothing
    that [strtod] can convert was taken. *)

Definition isspace (c : ascii) : bool :=
  let n := nat_of_ascii c in
  (n =? 32)%nat || ((9 <=? n)%nat && (n <=? 13)%nat).

Definition isdigit (c : ascii) : bool :=
  let n := nat_of_ascii c in (48 <=? n)%nat && (n <=? 57)%nat.

Definition digit_val (c : ascii) : Z := Z.of_nat (nat_of_ascii c) - 48.

Fixpoint skip_space (s : string) : string :=
  match s with
  | String c s' => if isspace c then skip_space s' else s
  | EmptyString => s
  end.

(** Reads a run of digits: the number read so far, how many digits, the rest. *)
Fixpoint scan_digits (s : string) (acc : Z) (n : Z) : Z * Z * string :=
  match s with
  | String c s' =>
      if isdigit c then scan_digits s' (10 * acc + digit_val c) (n + 1)
      else (acc, n, s)
  | EmptyString => (acc, n, s)
  end.

Definition scan_sign (s : string) : bool * string :=
  match s with
  | String "-" s' => (true, s')
  | String "+" s' => (false, s')
  | _ => (false, s)
  end.

(** The double nearest to [num / den] ([0 <= num], [0 < den]), negated when
    [neg]: the quotient is taken with at least 54 significant bits and down
    to the weight of the smallest subnormal, and the remainder decides the
    rounding. *)
Definition float_of_ratio (neg : bool) (num den : Z) : float :=
  if num =? 0 then (if neg then PrimFloat.neg_zero else PrimFloat.zero)
  else
    let k := Z.max 1074 (55 + Z.log2 den - Z.log2 num) in
    let q := (num * 2 ^ k) / den in
    let r := (num * 2 ^ k) mod den in
    let loc := if r =? 0 then loc_Exact else loc_Inexact (2 * r ?= den) in
    SF2Prim (binary_round_aux prec emax neg q (- k) loc).

(** [tolower]. *)
Definition lower (c : ascii) : ascii :=
  let n := nat_of_ascii c in
  if (65 <=? n)%nat && (n <=? 90)%nat then ascii_of_nat (n + 32) else c.

Definition isxdigit (c : ascii) : bool :=
  let n := nat_of_ascii (lower c) in
  isdigit c || ((97 <=? n)%nat && (n <=? 102)%nat).

Definition xdigit_val (c : ascii) : Z :=
  if isdigit c then digit_val c
  else Z.of_nat (nat_of_ascii (lower c)) - 87.

Fixpoint scan_xdigits (s : string) (acc : Z) (n : Z) : Z * Z * string :=
  match s with
  | String c s' =>
      if isxdigit c then scan_xdigits s' (16 * acc + xdigit_val c) (n + 1)
      else (acc, n, s)
  | EmptyString => (acc, n, s)
  end.

(** [s] begins with [word], upper and lower case taken as the same: the
    rest of [s]. *)
Fixpoint scan_word (word s : string) : option string :=
  match word, s with
  | EmptyString, _ => Some s
  | String a word', String c s' =>
      if Ascii.eqb (lower c) a then scan_word word' s' else None
  | String _ _, EmptyString => None
  end.

(** The exponent of a decimal or hexadecimal number: the letter [e] or
    [p], an optional sign and digits.  The letter and the sign are taken
    from the input even when no digit follows; the exponent is then 0. *)
Definition scan_exponent (letter : ascii) (s : string) : Z * string :=
  match s with
  | String c s' =>
      if Ascii.eqb (lower c) letter then
        let '(neg, s1) := scan_sign s' in
        let '(v, n, s2) := scan_digits s1 0 0 in
        (if neg then - v else v, s2)
      else (0, s)
  | EmptyString => (0, s)
  end.

(** Digits, a point, digits, an exponent; at least one digit. *)
Definition scan_decimal (neg : bool) (s1 : string) : option (float * string) :=
  let '(ip, ni, s2) := scan_digits s1 0 0 in
  let '(m, nf, s3) :=
    match s2 with
    | String "." s2' => scan_digits s2' ip 0
    | _ => (ip, 0, s2)
    end in
  if ni + nf =? 0 then None
  else
    let '(ex, s4) := scan_exponent "e" s3 in
    let e10 := ex - nf in
    Some (if 0 <=? e10 then float_of_ratio neg (m * 10 ^ e10) 1
          else float_of_ratio neg m (10 ^ (- e10)), s4).

(** What follows [0x]: hexadecimal digits, a point, hexadecimal digits, a
    binary exponent.  With a point and no digit, [strtod] converts the
    leading [0] alone, and the directive has taken [0x.]; with neither, the
    directive fails. *)
Definition scan_hex (neg : bool) (s1 : string) : option (float * string) :=
  let '(ip, ni, s2) := scan_xdigits s1 0 0 in
  match s2 with
  | String "." s2' =>
      let '(m, nf, s3) := scan_xdigits s2' ip 0 in
      if ni + nf =? 0 then Some (float_of_ratio neg 0 1, s3)
      else
        let '(ex, s4) := scan_exponent "p" s3 in
        let e2 := ex - 4 * nf in
        Some (if 0 <=? e2 then float_of_ratio neg (m * 2 ^ e2) 1
              else float_of_ratio neg m (2 ^ (- e2)), s4)
  | _ =>
      if ni =? 0 then None
      else
        let '(ex, s4) := scan_exponent "p" s2 in
        Some (if 0 <=? ex then float_of_ratio neg (ip * 2 ^ ex) 1
              else float_of_ratio neg ip (2 ^ (- ex)), s4)
  end.

(** [inf], and [infinity] when an [i] follows [inf]. *)
Definition scan_inf (neg : bool) (s1 : string) : option (float * string) :=
  let inf := if neg then neg_infinity else infinity in
  match scan_word "inf" s1 with
  | None => None
  | Some rest =>
      match rest with
      | String c _ =>
          if Ascii.eqb (lower c) "i" then
            option_map (fun rest' => (inf, rest')) (scan_word "inity" rest)
          else Some (inf, rest)
      | EmptyString => Some (inf, rest)
      end
  end.

(** [%lf].  The primitive float has one NaN, so the sign of [-nan] is
    dropped and the characters of [nan(...)], which the directive leaves in
    the input, play no part. *)
Definition scan_lf (s : string) : option (float * string) :=
  let '(neg, s1) := scan_sign (skip_space s) in
  match s1 with
  | String c s' =>
      if Ascii.eqb (lower c) "n" then
        option_map (fun rest => (nan, rest)) (scan_word "nan" s1)
      else if Ascii.eqb (lower c) "i" then scan_inf neg s1
      else
        match s1 with
        | String "0" (String x s2) =>
            if Ascii.eqb (lower x) "x" then scan_hex neg s2
            else scan_decimal neg s1
        | _ => scan_decimal neg s1
        end
  | EmptyString => None
  end.

(** [%d]: the decimal integer read; whether it fits an [int] is the
    caller's concern (the C standard leaves a value that does not fit
    undefined). *)
Definition scan_d (s : string) : option (Z * string) :=
  let '(neg, s1) := scan_sign (skip_space s) in
  let '(v, n, s2) := scan_digits s1 0 0 in
  if n =? 0 then None else Some (if neg then - v else v, s2).

(** What [sscanf(line, "%lf %lf %lf %d", &a, &b, &c, &q)] assigns: the
    directives are taken in order and the first failure ends the scan, so a
    later field is assigned only when all earlier ones were. *)
Record Scan4 := mkScan4 {
  f1 : option float; f2 : option float; f3 : option float; f4 : option Z }.

Definition sscanf_lf_lf_lf_d (line : string) : Scan4 :=
  match scan_lf line with
  | None => mkScan4 None None None None
  | Some (a, s1) =>
      match scan_lf s1 with
      | None => mkScan4 (Some a) None None None
      | Some (b, s2) =>
          match scan_lf s2 with
          | None => mkScan4 (Some a) (Some b) None None
          | Some (c, s3) =>
              match scan_d s3 with
              | None => mkScan4 (Some a) (Some b) (Some c) None
              | Some (q, _) => mkScan4 (Some a) (Some b) (Some c) (Some q)
              end
          end
      end
  end.

(** [sscanf(line, "%lf", &result)]. *)
Definition sscanf_lf (line : string) : option float :=
  match scan_lf line with
  | Some (a, _) => Some a
  | None => None
  end.

(** The C string held in a [char] buffer: the characters before the first
    NUL. *)
Fixpoint c_str (buf : list ascii) : string :=
  match buf with
  | [] => EmptyString
  | c :: buf' => if Ascii.eqb c NUL then EmptyString else String c (c_str buf')
  end.

End CLib.

(** ** ROS message types

  Only the fields the driver fills in.  The conversions done inside tf
  (yaw to quaternion, inversion of a transform) are kept symbolic: the
  records hold the arguments the driver passes. *)

Module Msgs.

(** [ros::Time], in nanoseconds. *)
Definition Time : Type := Z.

(** [(t1 - t0).toSec()]: seconds as a double plus [1e-9] times the
    nanoseconds, the nanoseconds normalised to [0 .. 999999999]. *)
Definition Duration_toSec (d : Z) : float :=
  (CLib.double_of_int (d / 1000000000)
   + 1e-9 * CLib.double_of_int (d mod 1000000000))%float.

(** [tf::createQuaternionMsgFromYaw(yaw)]. *)
Inductive Quaternion : Type :=
| QuaternionFromYaw (yaw : float).

(** [tf::Transform(tf::createQuaternionFromYaw(yaw), tf::Vector3(tx, ty, 0))]
    and [inverse()]. *)
Inductive Transform : Type :=
| TransformYawXY (yaw tx ty : float)
| TransformInverse (t : Transform).

Record TransformStamped := mkTransformStamped {
  ts_stamp : Time;
  ts_frame_id : string;
  ts_child_frame_id : string;
  ts_transform : Transform }.

(** [nav_msgs::Odometry]; a covariance is a row-major 6x6 array. *)
Record Odometry := mkOdometry {
  stamp : Time;
  frame_id : string;
  child_frame_id : string;
  position_x : float;
  position_y : float;
  position_z : float;
  orientation : Quaternion;
  pose_covariance : list float;
  twist_linear_x : float;
  twist_linear_y : float;
  twist_angular_z : float;
  twist_covariance : list float }.

(** [geometry_msgs::Twist], the fields [setVelocity] reads. *)
Record Twist := mkTwist {
  linear_x : float; linear_y : float; angular_z : float }.

End Msgs.

(** ** The world outside the program, and the monad of methods *)

Module Sys.
Import Msgs.

(** What the program does that can be seen from outside. *)
Inductive Event : Type :=
| EvWrite (data : string) (ret : Z)   (* write(fd, data, |data|) gave ret *)
| EvUsleep (usec : Z)                 (* usleep(usec) *)
| EvSleep (secs : float)              (* ros::Duration(secs).sleep() *)
| EvClose                             (* close(fd) of a connected socket *)
| EvTransform (t : TransformStamped)  (* tf_broadcaster_.sendTransform(t) *)
| EvPublish (m : Odometry).           (* odom_pub_.publish(m) *)

(** One address of [getaddrinfo]'s answer and how the attempt on it goes:
    [socket()] fails, [connect()] fails, or the peer accepts; an accepting
    peer comes with the bytes it will send and the results of the writes
    to it. *)
Inductive Candidate : Type :=
| NoSocket
| Refused
| Accepts (peer_rx : string) (peer_wr : list Z).

(** One run's worth of answers from outside, as finite scripts.  When
    [rx] is used up the peer has closed the connection, and when [net] is
    used up the resolver fails from then on.  A [read] that blocks for
    ever, a peer that is silent without closing and a resolver that goes
    on answering are runs without a world here: the bound of a loop is
    shown to be enough for the worlds there are, which says nothing of
    the loops of the program coming to an end in every run.  Memory other
    than the line buffer ([operator new], the strings of the library) is
    taken to be there. *)
Record World := mkWorld {
  rx : string;        (* bytes read(fd) still delivers; none left: read() <= 0 *)
  wr : list Z;        (* results of the coming write(fd) calls;
                         none left: the write is complete *)
  net : list (option (list Candidate));
                      (* answers of the coming getaddrinfo calls
                         ([None], or none left: it fails) *)
  heap : list bool;   (* whether the coming realloc calls succeed;
                         none left: they do *)
  clock : nat -> Time;  (* the successive readings of ros::Time::now() *)
  reads : nat;          (* how many readings were taken *)
  trace : list Event }. (* events so far, oldest first *)

Definition set_rx (s : string) (w : World) : World :=
  mkWorld s (wr w) (net w) (heap w) (clock w) (reads w) (trace w).
Definition set_peer (s : string) (l : list Z) (w : World) : World :=
  mkWorld s l (net w) (heap w) (clock w) (reads w) (trace w).
Definition set_net (l : list (option (list Candidate))) (w : World) : World :=
  mkWorld (rx w) (wr w) l (heap w) (clock w) (reads w) (trace w).
Definition set_heap (l : list bool) (w : World) : World :=
  mkWorld (rx w) (wr w) (net w) l (clock w) (reads w) (trace w).
Definition log (e : Event) (w : World) : World :=
  mkWorld (rx w) (wr w) (net w) (heap w) (clock w) (reads w) (trace w ++ [e]).

(** How a call ends.  [Undefined] is C++ undefined behaviour (a [sprintf]
    past the end of its buffer, a read of a variable never assigned, the
    overflow of an [int]); [OutOfFuel] is reserved for the loops of the
    model, whose bound is shown to suffice in every world. *)
Inductive outcome (A : Type) : Type :=
| Ret (a : A) (w : World)
| Throw (what : string) (w : World)
| Undefined
| OutOfFuel.
Arguments Ret {A} a w.
Arguments Throw {A} what w.
Arguments Undefined {A}.
Arguments OutOfFuel {A}.

Definition M (A : Type) : Type := World -> outcome A.

Definition ret {A} (a : A) : M A := fun w => Ret a w.

Definition bind {A B} (m : M A) (k : A -> M B) : M B :=
  fun w =>
    match m w with
    | Ret a w' => k a w'
    | Throw what w' => Throw what w'
    | Undefined => Undefined
    | OutOfFuel => OutOfFuel
    end.

Definition throw {A} (what : string) : M A := fun w => Throw what w.
Definition undefined {A} : M A := fun _ => Undefined.

(** [try { m } catch (std::exception&) { handler }]. *)
Definition try_catch {A} (m : M A) (handler : string -> M A) : M A :=
  fun w =>
    match m w with
    | Throw what w' => handler what w'
    | o => o
    end.

Definition emit (e : Event) : M unit := fun w => Ret tt (log e w).

(** [write(fd, data, strlen(data))]. *)
Definition sys_write (data : string) : M Z :=
  fun w =>
    match wr w with
    | [] =>
        let n := Z.of_nat (String.length data) in
        Ret n (log (EvWrite data n) w)
    | n :: rest =>
        Ret n (log (EvWrite data n) (set_peer (rx w) rest w))
    end.

(** [ros::Time::now()]. *)
Definition now : M Time :=
  fun w =>
    Ret (clock w (reads w))
        (mkWorld (rx w) (wr w) (net w) (heap w) (clock w) (S (reads w))
           (trace w)).

End Sys.

Notation "x <- m ;; k" := (Sys.bind m (fun x => k))
  (at level 20, m at level 99, k at level 200).
Notation "' p <- m ;; k" := (Sys.bind m (fun p => k))
  (at level 20, p pattern, m at level 99, k at level 200).

(** ** class Nav2Remote (nav2remote.cpp, nav2remote.h) *)

Module Nav2Remote.
Import CLib Sys.

(** The object: the line buffer [line] with its allocated size [lineLen].
    The descriptor [fd] names the one connected socket, whose two
    directions are [rx] and [wr] of the world.  The indices are far below
    the range of [int] (a line of 2^31 bytes aside), so they are [nat]. *)
Record t := mk { line : list ascii; lineLen : nat }.

(** [realloc(line, n)] when it succeeds: the old bytes are kept; the new
    ones, which the code never reads before it writes them, are shown as
    NUL. *)
Definition realloc (buf : list ascii) (n : nat) : list ascii :=
  take n buf ++ replicate (n - length buf) NUL.

(** The addresses are tried in order; the first that connects wins. *)
Fixpoint connect_first (ai : list Candidate) : M t :=
  match ai with
  | [] => throw "Can't connect to robot"
  | NoSocket :: rp => connect_first rp
  | Refused :: rp => connect_first rp
  | Accepts peer_rx peer_wr :: _ =>
      fun w => Ret (mk [] 0) (set_peer peer_rx peer_wr w)
  end.

(** [Nav2Remote::Nav2Remote(host, port)]. *)
Definition new (host : string) (port : Z) : M t :=
  if (port <? 1) || (65535 <? port) then throw "Invalid port"
  else
    fun w =>
      match net w with
      | Some ai :: later => connect_first ai (set_net later w)
      | None :: later => Throw "Can't get address info" (set_net later w)
      | [] => Throw "Can't get address info" w
      end.

(** [Nav2Remote::~Nav2Remote()]: the buffer is freed and the socket closed;
    nothing more is received from or sent to that peer. *)
Definition delete (r : t) : M unit :=
  fun w => Ret tt (log EvClose (set_peer EmptyString [] w)).

Definition is_noise (c : option ascii) : bool :=
  match c with
  | Some c => Ascii.eqb c "|" || Ascii.eqb c "+"
  | None => false
  end.

(** How the growth of the buffer ends: with the buffer and its size as
    they are now and the answers the allocator has yet to give, with the
    exception, or with the overflow of [lineLen]. *)
Inductive grown : Type :=
| Grown (heap : list bool) (line : list ascii) (lineLen : nat)
| NoMemory (heap : list bool)
| Overflows.

(** The growth of the buffer at the top of the loop body:
    [if (lineLen <= pos+1) { lineLen += 32; line = realloc(line, lineLen);
    if (!line) throw std::bad_alloc(); }].  [lineLen] is an [int], and
    [lineLen += 32] past [INT_MAX] is undefined. *)
Definition grow_buffer (heap : list bool) (line : list ascii)
    (lineLen pos : nat) : grown :=
  if (lineLen <=? pos + 1)%nat then
    if Z.of_nat lineLen + 32 <=? int_max then
      match heap with
      | false :: heap' => NoMemory heap'
      | _ => Grown (tail heap) (realloc line (lineLen + 32)) (lineLen + 32)
      end
    else Overflows
  else Grown heap line lineLen.

(** How the loop of [readLine] ends: [return] of a value, with the object
    as it is left, the input not yet read and the answers the allocator
    has yet to give; [throw std::bad_alloc()], after which the object is
    not used again; or undefined behaviour. *)
Inductive line_end : Type :=
| Returns (rc : Z) (r : t) (rest : string) (heap : list bool)
| BadAlloc (rest : string) (heap : list bool)
| IntOverflow.

(** The loop of [readLine], one iteration per byte read.  [pos] is the
    value of the loop variable at the top of the body: after [--pos;
    continue] the increment of the [for] brings it back to [pos], and after
    [pos = -1; continue] to [0].  [pos + 1] never exceeds [lineLen], so
    [pos] overflows no [int] that [lineLen] has not overflowed before. *)
Fixpoint readLine_loop (input : string) (heap : list bool)
    (line : list ascii) (lineLen pos : nat) : line_end :=
  match grow_buffer heap line lineLen pos with
  | Overflows => IntOverflow
  | NoMemory heap => BadAlloc input heap
  | Grown heap line lineLen =>
      match input with
      | EmptyString => Returns (-1) (mk line lineLen) input heap
      | String c rest =>
          let line := <[pos := c]> line in
          if Ascii.eqb c CR then readLine_loop rest heap line lineLen pos
          else if Ascii.eqb c LF then
            let line := <[pos := NUL]> line in
            if is_noise (line !! 0%nat) then
              readLine_loop rest heap line lineLen 0
            else Returns (Z.of_nat pos) (mk line lineLen) rest heap
          else readLine_loop rest heap line lineLen (S pos)
      end
  end.

(** [int Nav2Remote::readLine() const]: the length of the line now in the
    buffer, or -1. *)
Definition readLine (r : t) : M (Z * t) :=
  fun w =>
    match readLine_loop (rx w) (heap w) (line r) (lineLen r) 0 with
    | Returns rc r' rest heap' =>
        Ret (rc, r') (set_rx rest (set_heap heap' w))
    | BadAlloc rest heap' =>
        Throw "std::bad_alloc" (set_rx rest (set_heap heap' w))
    | IntOverflow => Undefined
    end.

(** The two lines every command ends with:
    [int p = sprintf(msg, ...); return write(fd,msg,p) == p ? 0 : -1;]
    where [msg] has room for 127 characters and the final NUL. *)
Definition send (text : string) : M Z :=
  if (128 <=? String.length text)%nat then undefined
  else
    n <- sys_write text ;;
    ret (if n =? Z.of_nat (String.length text) then 0 else -1).

Definition deg_per_rad : float := (180 / M_PI)%float.
Definition rad_per_deg : float := (M_PI / 180)%float.

Definition setTargetOrientation (orientation : float) : M Z :=
  send ("o " +:+ printf_lf orientation +:+ nl).

Definition setAbsoluteVelocity (vx vy : float) : M Z :=
  send ("av " +:+ printf_lf vx +:+ " " +:+ printf_lf vy +:+ nl).

Definition setRelativeVelocity (vx vy turnRate : float) : M Z :=
  send ("v " +:+ printf_lf vx +:+ " " +:+ printf_lf vy +:+ " "
        +:+ printf_lf (turnRate * deg_per_rad) +:+ nl).

Definition setPosition (x y orientation : float) : M Z :=
  send ("p " +:+ printf_lf x +:+ " " +:+ printf_lf y +:+ " "
        +:+ printf_lf (orientation * deg_per_rad) +:+ nl).

Definition stop : M Z :=
  n <- sys_write ("s" +:+ nl) ;;
  ret (if n =? 2 then 0 else -1).

Definition turnLeft (angle : float) : M Z :=
  send ("lt " +:+ printf_lf (angle * deg_per_rad) +:+ nl).

Definition turnRight (angle : float) : M Z := turnLeft (- angle).

Definition move (dist direction : float) : M Z :=
  send ("mv " +:+ printf_lf dist +:+ " "
        +:+ printf_lf (direction * deg_per_rad) +:+ nl).

Definition forward (dist : float) : M Z := move dist 0.

Definition back (dist : float) : M Z := forward (- dist).

Definition setMaxSpeed (maxSpeed : float) : M Z :=
  send ("sms " +:+ printf_lf maxSpeed +:+ nl).

Definition setMaxAccel (maxAccel : float) : M Z :=
  send ("sma " +:+ printf_lf maxAccel +:+ nl).

Definition setMaxCorneringError (maxCorneringError : float) : M Z :=
  send ("smce " +:+ printf_lf maxCorneringError +:+ nl).

(** [estimatePosition(x, y, orientation)]: the three references are given
    as the values they hold at the call and returned as they are left; a
    reference the scan does not reach keeps its value.  The fourth field
    goes to the local [qlen], which is not used; the scan is undefined when
    that field does not fit an [int]. *)
Definition estimatePosition (r : t) (x y orientation : float)
  : M (Z * (float * float * float) * t) :=
  n <- sys_write ("q" +:+ nl) ;;
  if negb (n =? 2) then ret (-1, (x, y, orientation), r)
  else
    ' (rc, r) <- readLine r ;;
    if rc <? 0 then ret (-1, (x, y, orientation), r)
    else
      let s := sscanf_lf_lf_lf_d (c_str (line r)) in
      if negb (from_option fits_int true (f4 s)) then undefined
      else
        let x := default x (f1 s) in
        let y := default y (f2 s) in
        let orientation := default orientation (f3 s) in
        let orientation := (orientation * rad_per_deg)%float in
        ret (0, (x, y, orientation), r).

(** The body shared by [getMaxSpeed], [getMaxAccel] and
    [getMaxCorneringError], which differ in the request only.  [result] is
    never assigned when the line holds no number; returning it then is
    undefined. *)
Definition query_double (request : string) (r : t) : M (float * t) :=
  n <- sys_write request ;;
  if negb (n =? Z.of_nat (String.length request)) then ret ((-1)%float, r)
  else
    ' (rc, r) <- readLine r ;;
    if rc <? 0 then ret ((-1)%float, r)
    else
      match sscanf_lf (c_str (line r)) with
      | Some result => ret (result, r)
      | None => undefined
      end.

Definition getMaxSpeed : t -> M (float * t) := query_double ("qms" +:+ nl).
Definition getMaxAccel : t -> M (float * t) := query_double ("qma" +:+ nl).
Definition getMaxCorneringError : t -> M (float * t) :=
  query_double ("qmce" +:+ nl).

(** [getQueueSize()]: [qlen] is never assigned when the line has fewer than
    four fields, and returning it then is undefined. *)
Definition getQueueSize (r : t) : M (Z * t) :=
  n <- sys_write ("q" +:+ nl) ;;
  if negb (n =? 2) then ret (-1, r)
  else
    ' (rc, r) <- readLine r ;;
    if rc <? 0 then ret (-1, r)
    else
      match f4 (sscanf_lf_lf_lf_d (c_str (line r))) with
      | Some qlen => if fits_int qlen then ret (qlen, r) else undefined
      | None => undefined
      end.

(** [wait()]: [while(1) { rc = getQueueSize(); if (rc < 1) return rc;
    usleep(100000); }] *)
Fixpoint wait_loop (fuel : nat) (r : t) : M (Z * t) :=
  match fuel with
  | O => fun _ => OutOfFuel
  | S fuel =>
      ' (rc, r) <- getQueueSize r ;;
      if rc <? 1 then ret (rc, r)
      else
        _ <- emit (EvUsleep 100000) ;;
        wait_loop fuel r
  end.

(** Every poll that does not end the loop has read a line, so one round
    more than there are bytes to read is enough. *)
Definition wait (r : t) : M (Z * t) :=
  fun w => wait_loop (S (String.length (rx w))) r w.

End Nav2Remote.

(** ** class Nav2Driver, with its nested Pose2D and BaseOdometry *)

Module Nav2Driver.
Import CLib Msgs Sys.

(** *** struct Pose2D *)

Record Pose2D := mkPose2D { x : float; y : float; th : float }.

(** [Pose2D()]. *)
Definition origin : Pose2D := mkPose2D 0 0 0.

(** The compound assignments change the object they are called on: each
    function gives that object as the call leaves it. *)

(** [operator+=]. *)
Definition add_assign (this other : Pose2D) : Pose2D :=
  mkPose2D (x this + x other) (y this + y other) (th this + th other).

(** [operator-=], with the rollover test on [th].  [abs] is taken to be
    the [double] overload that <cmath> provides. *)
Definition sub_assign (this other : Pose2D) : Pose2D :=
  let th1 :=
    if (M_PI <? PrimFloat.abs (th this - th other))%float then
      if (0 <? th other)%float then (th this + 2 * M_PI)%float
      else (th this - 2 * M_PI)%float
    else th this in
  mkPose2D (x this - x other) (y this - y other) (th1 - th other).

(** [operator/=]. *)
Definition div_assign (this : Pose2D) (other : float) : Pose2D :=
  mkPose2D (x this / other) (y this / other) (th this / other).

(** [operator+], [operator-] and [operator/] are [return *this += other;]
    and so on: they too change the left operand, and what they return is a
    reference to it. *)
Definition plus (this other : Pose2D) : Pose2D := add_assign this other.
Definition minus (this other : Pose2D) : Pose2D := sub_assign this other.
Definition divide (this : Pose2D) (other : float) : Pose2D :=
  div_assign this other.

(** *** class BaseOdometry *)

Record BaseOdometry := mkBaseOdometry {
  pose_ : Pose2D;
  vel_ : Pose2D;
  prev_ : Pose2D;
  offset_ : Pose2D;
  last_time_ : Time }.

(** [BaseOdometry()]. *)
Definition BaseOdometry_new : M BaseOdometry :=
  t <- now ;;
  ret (mkBaseOdometry origin origin origin origin t).

(** [BaseOdometry(Pose2D offset)]. *)
Definition BaseOdometry_at (offset : Pose2D) : M BaseOdometry :=
  t <- now ;;
  ret (mkBaseOdometry origin origin origin offset t).

(** [updateWithRelative(Pose2D delta)]: [delta / elapsed] divides the
    parameter itself, after it was added to [pose_]. *)
Definition updateWithRelative (delta : Pose2D) (o : BaseOdometry)
  : M BaseOdometry :=
  t1 <- now ;;
  let elapsed := Duration_toSec (t1 - last_time_ o) in
  t2 <- now ;;
  let pose := add_assign (pose_ o) delta in
  let delta := divide delta elapsed in
  ret (mkBaseOdometry pose delta (prev_ o) (offset_ o) t2).

(** [updateWithAbsolute(Pose2D abs)]: [abs - prev_] runs [abs -= prev_] on
    the parameter [abs]; [updateWithRelative] receives a copy of the
    changed [abs], and [prev_ = abs] then reads that same changed [abs]. *)
Definition updateWithAbsolute (abs : Pose2D) (o : BaseOdometry)
  : M BaseOdometry :=
  let abs := minus abs (prev_ o) in
  o <- updateWithRelative abs o ;;
  ret (mkBaseOdometry (pose_ o) (vel_ o) abs (offset_ o) (last_time_ o)).

(** [getTransform(invert_odom, robot_prefix)]. *)
Definition getTransform (invert_odom : bool) (robot_prefix : string)
    (o : BaseOdometry) : TransformStamped :=
  let temp :=
    TransformYawXY (th (pose_ o) + th (offset_ o))
                   (x (pose_ o) + x (offset_ o))
                   (y (pose_ o) + y (offset_ o)) in
  if invert_odom then
    mkTransformStamped (last_time_ o)
      (robot_prefix +:+ "base_footprint") (robot_prefix +:+ "odom")
      (TransformInverse temp)
  else
    mkTransformStamped (last_time_ o)
      (robot_prefix +:+ "odom") (robot_prefix +:+ "base_footprint")
      temp.

(** [a ^ b] on two [int]s is bitwise exclusive or; the result is converted
    to [double] when it is stored in a covariance. *)
Definition int_xor (a b : Z) : float := double_of_int (Z.lxor a b).

(** The six assignments to [covariance[0]], [[7]], ..., [[35]] of a
    message whose arrays start as 36 zeros. *)
Definition covariance : list float :=
  <[35%nat := int_xor 10 3]>
    (<[28%nat := int_xor 10 6]>
       (<[21%nat := int_xor 10 6]>
          (<[14%nat := int_xor 10 6]>
             (<[7%nat := int_xor 10 (-3)]>
                (<[0%nat := int_xor 10 (-3)]> (replicate 36 0%float)))))).

(** [getMessage(robot_prefix)]. *)
Definition getMessage (robot_prefix : string) (o : BaseOdometry) : Odometry :=
  mkOdometry (last_time_ o)
    (robot_prefix +:+ "odom") (robot_prefix +:+ "base_link")
    (x (pose_ o) + x (offset_ o)) (y (pose_ o) + y (offset_ o)) 0
    (QuaternionFromYaw (th (pose_ o) + th (offset_ o)))
    covariance
    (x (vel_ o)) (y (vel_ o)) (th (vel_ o))
    covariance.

(** [getPose()]. *)
Definition getPose (o : BaseOdometry) : Pose2D := pose_ o.

(** *** The driver *)

Record t := mk {
  remote_ : option Nav2Remote.t;
  base_odom_ : BaseOdometry;
  robot_address_ : string;
  robot_prefix_ : string;
  robot_port_ : Z;
  invert_odom_ : bool }.

Definition set_remote (r : option Nav2Remote.t) (d : t) : t :=
  mk r (base_odom_ d) (robot_address_ d) (robot_prefix_ d) (robot_port_ d)
     (invert_odom_ d).
Definition set_odom (o : BaseOdometry) (d : t) : t :=
  mk (remote_ d) o (robot_address_ d) (robot_prefix_ d) (robot_port_ d)
     (invert_odom_ d).

(** The [for] loop of [connect], [attempts] iterations left, and the
    [throw] after it. *)
Fixpoint connect_retry (attempts : nat) (robot_address : string)
    (robot_port : Z) (d : t) : M t :=
  match attempts with
  | O => throw "Failed to connect to Nav2 base"
  | S attempts =>
      try_catch
        (r <- Nav2Remote.new robot_address robot_port ;;
         ret (set_remote (Some r) d))
        (fun _ =>
           _ <- emit (EvSleep 0.2) ;;
           connect_retry attempts robot_address robot_port d)
  end.

(** [connect(robot_address, robot_port)]. *)
Definition connect (robot_address : string) (robot_port : Z) (d : t) : M t :=
  d <- match remote_ d with
       | Some r =>
           _ <- Nav2Remote.delete r ;;
           let offset := getPose (base_odom_ d) in
           o <- BaseOdometry_at offset ;;
           ret (set_odom o (set_remote None d))
       | None => ret d
       end ;;
  connect_retry 5 robot_address robot_port d.

(** The [while] loop of [publishOdometry]; [data] lives across its
    iterations. *)
Fixpoint poll_position (fuel : nat) (data : Pose2D) (d : t)
  : M (Pose2D * t) :=
  match fuel with
  | O => fun _ => OutOfFuel
  | S fuel =>
      match remote_ d with
      | None =>
          d <- connect (robot_address_ d) (robot_port_ d) d ;;
          poll_position fuel data d
      | Some r =>
          ' (rc, (px, py, pth), r) <-
            Nav2Remote.estimatePosition r (x data) (y data) (th data) ;;
          let data := mkPose2D px py pth in
          let d := set_remote (Some r) d in
          if rc <? 0 then
            d <- connect (robot_address_ d) (robot_port_ d) d ;;
            poll_position fuel data d
          else ret (data, d)
      end
  end.

(** [publishOdometry(invert_odom, robot_prefix)].  Every turn of its loop
    but the last makes a connection, and a connection uses up an answer of
    the resolver, so one turn more than there are answers is enough. *)
Definition publishOdometry (invert_odom : bool) (robot_prefix : string)
    (d : t) : M t :=
  fun w =>
    (' (data, d) <- poll_position (S (length (net w))) origin d ;;
     o <- updateWithAbsolute data (base_odom_ d) ;;
     _ <- emit (EvTransform (getTransform invert_odom robot_prefix o)) ;;
     _ <- emit (EvPublish (getMessage robot_prefix o)) ;;
     ret (set_odom o d)) w.

Section Libm.
(** [atan2] and [pow] of the C mathematics library. *)
Variables atan2 pow : float -> float -> float.

(** The [while] loop of [setVelocity]. *)
Fixpoint send_velocity (fuel : nat) (vn vs turnRate : float) (d : t)
  : M t :=
  match fuel with
  | O => fun _ => OutOfFuel
  | S fuel =>
      match remote_ d with
      | None =>
          d <- connect (robot_address_ d) (robot_port_ d) d ;;
          send_velocity fuel vn vs turnRate d
      | Some r =>
          rc <- Nav2Remote.setRelativeVelocity vn vs turnRate ;;
          if rc <? 0 then
            d <- connect (robot_address_ d) (robot_port_ d) d ;;
            send_velocity fuel vn vs turnRate d
          else ret d
      end
  end.

(** [setVelocity(twist)]. *)
Definition setVelocity (twist : Twist) (d : t) : M t :=
  let vs := sqrt (pow (linear_x twist) 2 + pow (linear_y twist) 2) in
  let vn := (atan2 (linear_y twist) (linear_x twist) * (180 / M_PI))%float in
  fun w => send_velocity (S (length (net w))) vn vs (angular_z twist) d w.
End Libm.

(** The parameters read from the parameter server, defaults applied. *)
Record Params := mkParams {
  robot_address : string;
  robot_port : Z;
  robot_name : string;
  invert_odom : bool }.

(** [Nav2Driver(name)]: the members are constructed ([base_odom_] reads
    the clock), then the body runs. *)
Definition new (p : Params) : M t :=
  o <- BaseOdometry_new ;;
  if String.eqb (robot_address p) EmptyString then
    throw "Please provide address for Nav2"
  else
    let robot_prefix :=
      if String.eqb (robot_name p) EmptyString then EmptyString
      else robot_name p +:+ "_" in
    connect (robot_address p) (robot_port p)
      (mk None o (robot_address p) robot_prefix (robot_port p)
          (invert_odom p)).

(** The timer callback: [publishOdometry] bound to [invert_odom_] and
    [robot_prefix_]. *)
Definition tick (d : t) : M t :=
  publishOdometry (invert_odom_ d) (robot_prefix_ d) d.

(** The pose an odometry message carries. *)
Definition message_pose (m : Odometry) : Pose2D :=
  match orientation m with
  | QuaternionFromYaw yaw => mkPose2D (position_x m) (position_y m) yaw
  end.

(** The poses published so far, oldest first. *)
Definition published (w : World) : list Pose2D :=
  omap (fun e => match e with
                 | EvPublish m => Some (message_pose m)
                 | _ => None
                 end) (trace w).

End Nav2Driver.

(** ** Definitions used to state the properties *)

Module Ref.
Import CLib Sys.

(** The buffer of a [Nav2Remote] is as long as [lineLen] says. *)
Definition wf (r : Nav2Remote.t) : Prop :=
  length (Nav2Remote.line r) = Nav2Remote.lineLen r.

(** The sentinel characters of the specification, [|] and [+], and the
    lines that begin with one. *)
Definition sentinel (c : ascii) : bool :=
  Ascii.eqb c "|" || Ascii.eqb c "+".

Definition begins_with_sentinel (l : list ascii) : bool :=
  match l with
  | c :: _ => sentinel c
  | [] => false
  end.

(** The filtered line as the specification words it, on the bytes alone:
    a line ends at a line feed, carriage returns are dropped, a line
    that begins with [|] or [+] is discarded and the scan goes on.  [cur]
    is the part of the current line already seen.  The result is the line
    and the input left after it. *)
Fixpoint spec_filtered_line_from (cur : list ascii) (input : string)
  : option (list ascii * string) :=
  match input with
  | EmptyString => None
  | String c rest =>
      if Ascii.eqb c CR then spec_filtered_line_from cur rest
      else if Ascii.eqb c LF then
        if begins_with_sentinel cur then spec_filtered_line_from [] rest
        else Some (cur, rest)
      else spec_filtered_line_from (cur ++ [c]) rest
  end.

Definition spec_filtered_line : string -> option (list ascii * string) :=
  spec_filtered_line_from [].

(** The characters of [s] that are not carriage returns. *)
Fixpoint visible (s : string) : list ascii :=
  match s with
  | EmptyString => []
  | String c rest => if Ascii.eqb c CR then visible rest else c :: visible rest
  end.

Fixpoint no_LF (s : string) : bool :=
  match s with
  | EmptyString => true
  | String c rest => negb (Ascii.eqb c LF) && no_LF rest
  end.

(** A raw line (without its line feed) that begins with [|] or [+],
    carriage returns left aside. *)
Definition noise_line (s : string) : bool :=
  no_LF s && begins_with_sentinel (visible s).

(** A raw line that is handed over: it does not begin with [|] or [+]. *)
Definition real_line (s : string) : bool :=
  no_LF s && negb (begins_with_sentinel (visible s)).

Definition begins_with_noise (s : string) : bool :=
  match s with
  | String c _ => sentinel c
  | EmptyString => false
  end.

(** No allocation that is still to come fails. *)
Definition memory_lasts (w : World) : Prop :=
  Forall (fun ok : bool => ok = true) (heap w).

(** The bytes still to be read are fewer than the [int] counter of the
    buffer size can take: [lineLen] stays below [INT_MAX]. *)
Definition short_input (w : World) : Prop :=
  Z.of_nat (String.length (rx w)) + 33 <= int_max.

(** What a call to [readLine] hands to its caller: the return code, the
    C string in the buffer when a line was read, the input left unread. *)
Definition read_result (o : outcome (Z * Nav2Remote.t))
  : option (Z * string * string) :=
  match o with
  | Ret (rc, r) w =>
      Some (rc, if rc <? 0 then EmptyString else c_str (Nav2Remote.line r),
            rx w)
  | _ => None
  end.

(** The operations of the client that write a command, as values, so that
    a property can speak of all of them. *)
Inductive Command : Type :=
| SetTargetOrientation (orientation : float)
| SetAbsoluteVelocity (vx vy : float)
| SetRelativeVelocity (vx vy turnRate : float)
| SetPosition (x y orientation : float)
| Stop
| TurnLeft (angle : float)
| TurnRight (angle : float)
| Move (dist direction : float)
| Forward (dist : float)
| Back (dist : float)
| SetMaxSpeed (maxSpeed : float)
| SetMaxAccel (maxAccel : float)
| SetMaxCorneringError (maxCorneringError : float).

Definition run_command (c : Command) : M Z :=
  match c with
  | SetTargetOrientation o => Nav2Remote.setTargetOrientation o
  | SetAbsoluteVelocity vx vy => Nav2Remote.setAbsoluteVelocity vx vy
  | SetRelativeVelocity vx vy t => Nav2Remote.setRelativeVelocity vx vy t
  | SetPosition x y o => Nav2Remote.setPosition x y o
  | Stop => Nav2Remote.stop
  | TurnLeft a => Nav2Remote.turnLeft a
  | TurnRight a => Nav2Remote.turnRight a
  | Move d a => Nav2Remote.move d a
  | Forward d => Nav2Remote.forward d
  | Back d => Nav2Remote.back d
  | SetMaxSpeed v => Nav2Remote.setMaxSpeed v
  | SetMaxAccel v => Nav2Remote.setMaxAccel v
  | SetMaxCorneringError v => Nav2Remote.setMaxCorneringError v
  end.

(** The text a command formats into [msg] ([stop] writes its two bytes
    without formatting): the format string of its [sprintf], with the
    arguments it passes, one command calling another included. *)
Definition formatted (c : Command) : string :=
  match c with
  | SetTargetOrientation o => "o " +:+ printf_lf o +:+ nl
  | SetAbsoluteVelocity vx vy =>
      "av " +:+ printf_lf vx +:+ " " +:+ printf_lf vy +:+ nl
  | SetRelativeVelocity vx vy t =>
      "v " +:+ printf_lf vx +:+ " " +:+ printf_lf vy +:+ " "
      +:+ printf_lf (t * (180 / M_PI)) +:+ nl
  | SetPosition x y o =>
      "p " +:+ printf_lf x +:+ " " +:+ printf_lf y +:+ " "
      +:+ printf_lf (o * (180 / M_PI)) +:+ nl
  | Stop => "s" +:+ nl
  | TurnLeft a => "lt " +:+ printf_lf (a * (180 / M_PI)) +:+ nl
  | TurnRight a => "lt " +:+ printf_lf (- a * (180 / M_PI)) +:+ nl
  | Move d a =>
      "mv " +:+ printf_lf d +:+ " " +:+ printf_lf (a * (180 / M_PI)) +:+ nl
  | Forward d =>
      "mv " +:+ printf_lf d +:+ " " +:+ printf_lf (0 * (180 / M_PI)) +:+ nl
  | Back d =>
      "mv " +:+ printf_lf (- d) +:+ " " +:+ printf_lf (0 * (180 / M_PI))
      +:+ nl
  | SetMaxSpeed v => "sms " +:+ printf_lf v +:+ nl
  | SetMaxAccel v => "sma " +:+ printf_lf v +:+ nl
  | SetMaxCorneringError v => "smce " +:+ printf_lf v +:+ nl
  end.

(** The operations that ask the device something, and what they give
    back: an [int] with the three references of [estimatePosition] as the
    call leaves them, an [int], or a [double]. *)
Inductive Query : Type :=
| EstimatePosition (x y orientation : float)
| GetMaxSpeed
| GetMaxAccel
| GetMaxCorneringError
| GetQueueSize.

Inductive Answer : Type :=
| APose (rc : Z) (x y orientation : float)
| AnInt (rc : Z)
| ADouble (v : float).

Definition run_query (q : Query) (r : Nav2Remote.t)
  : M (Answer * Nav2Remote.t) :=
  match q with
  | EstimatePosition x y o =>
      ' (rc, (x, y, o), r) <- Nav2Remote.estimatePosition r x y o ;;
      ret (APose rc x y o, r)
  | GetMaxSpeed =>
      ' (v, r) <- Nav2Remote.getMaxSpeed r ;; ret (ADouble v, r)
  | GetMaxAccel =>
      ' (v, r) <- Nav2Remote.getMaxAccel r ;; ret (ADouble v, r)
  | GetMaxCorneringError =>
      ' (v, r) <- Nav2Remote.getMaxCorneringError r ;; ret (ADouble v, r)
  | GetQueueSize =>
      ' (rc, r) <- Nav2Remote.getQueueSize r ;; ret (AnInt rc, r)
  end.

(** The request a query writes. *)
Definition request (q : Query) : string :=
  match q with
  | EstimatePosition _ _ _ | GetQueueSize => "q" +:+ nl
  | GetMaxSpeed => "qms" +:+ nl
  | GetMaxAccel => "qma" +:+ nl
  | GetMaxCorneringError => "qmce" +:+ nl
  end.

(** The I/O of a query fails in world [w]: the coming [write] is short, or
    the stream ends before an unfiltered line is complete (a [read] gives
    nothing). *)
Definition io_fails (q : Query) (w : World) : Prop :=
  (exists (n : Z) (later : list Z),
      wr w = n :: later /\ n <> Z.of_nat (String.length (request q)))
  \/ spec_filtered_line (rx w) = None.

(** The error value of a query: -1, as an [int] or as a [double]. *)
Definition is_error (a : Answer) : bool :=
  match a with
  | APose rc _ _ _ | AnInt rc => rc =? -1
  | ADouble v => PrimFloat.Leibniz.eqb v (-1)%float
  end.

(** *** Worlds and inputs for the examples *)

(** A clock that advances a tenth of a second from reading to reading. *)
Definition clock0 (n : nat) : Msgs.Time := Z.of_nat n * 100000000.

Definition world (peer_rx : string) (peer_wr : list Z)
    (answers : list (option (list Candidate))) : World :=
  mkWorld peer_rx peer_wr answers [] clock0 0 [].

(** The given lines, each ended by a line feed. *)
Fixpoint lines (l : list string) : string :=
  match l with
  | [] => EmptyString
  | s :: l' => s +:+ nl +:+ lines l'
  end.

(** A client object as its constructor leaves it. *)
Definition fresh : Nav2Remote.t := Nav2Remote.mk [] 0.

(** A world with an open connection on which nothing arrives and every
    write is complete. *)
Definition idle : World := world EmptyString [] [].

(** The text of the one [write] a call made in a world with an empty
    trace. *)
Definition wire_text {A} (o : outcome A) : option string :=
  match o with
  | Ret _ w =>
      match trace w with
      | [EvWrite text _] => Some text
      | _ => None
      end
  | _ => None
  end.

(** An integrator created at start-up and fed the given absolute
    samples in order. *)
Fixpoint feed_from (o : Nav2Driver.BaseOdometry)
    (samples : list Nav2Driver.Pose2D) : M Nav2Driver.BaseOdometry :=
  match samples with
  | [] => ret o
  | s :: later =>
      o <- Nav2Driver.updateWithAbsolute s o ;; feed_from o later
  end.

Definition feed (samples : list Nav2Driver.Pose2D)
  : M Nav2Driver.BaseOdometry :=
  o <- Nav2Driver.BaseOdometry_new ;; feed_from o samples.

Definition returned {A} (o : outcome A) : option A :=
  match o with
  | Ret a _ => Some a
  | _ => None
  end.

(** A sample with heading [theta] at the device's origin. *)
Definition heading (theta : float) : Nav2Driver.Pose2D :=
  Nav2Driver.mkPose2D 0 0 theta.

(** A driver started with the given parameters and run for [n] ticks of
    its timer. *)
Fixpoint ticks (n : nat) (d : Nav2Driver.t) : M Nav2Driver.t :=
  match n with
  | O => ret d
  | S n => d <- Nav2Driver.tick d ;; ticks n d
  end.

Definition run (p : Nav2Driver.Params) (n : nat) : M Nav2Driver.t :=
  d <- Nav2Driver.new p ;; ticks n d.

Definition robot : Nav2Driver.Params :=
  Nav2Driver.mkParams "robot" 5010 EmptyString false.

(** One connection, on which the device reports a steady advance along
    x: 1, 2 and 3 metres. *)
Definition steady_advance : World :=
  world EmptyString [] [
    Some [Accepts (lines ["1 0 0 0"; "2 0 0 0"; "3 0 0 0"]) []] ].

(** Three connections in a row.  The first delivers one pose and is
    lost; the second, whose device starts again at its origin, delivers
    two and is lost; so does the third. *)
Definition two_reconnects : World :=
  world EmptyString [] [
    Some [Accepts (lines ["1 0 0 0"]) []];
    Some [Accepts (lines ["0 0 0 0"; "2 0 0 0"]) []];
    Some [Accepts (lines ["0 0 0 0"]) []] ].

(** An event other than a [write]. *)
Definition quiet (e : Event) : Prop :=
  match e with
  | EvWrite _ _ => False
  | _ => True
  end.

(** An event that, if it is a [write], writes [text]. *)
Definition writes_only (text : string) (e : Event) : Prop :=
  match e with
  | EvWrite data _ => data = text
  | _ => True
  end.

(** [w'] is [w] with the events [evs] added. *)
Definition extends (w w' : World) (evs : list Event) : Prop :=
  trace w' = trace w ++ evs.

(** A driver with a live connection, as [new] leaves it at time 0. *)
Definition live : Nav2Driver.t :=
  Nav2Driver.mk (Some fresh)
    (Nav2Driver.mkBaseOdometry Nav2Driver.origin Nav2Driver.origin
       Nav2Driver.origin Nav2Driver.origin 0)
    "robot" EmptyString 5010 false.

Definition published_by {A} (o : outcome A)
  : option (list Nav2Driver.Pose2D) :=
  match o with
  | Ret _ w => Some (Nav2Driver.published w)
  | _ => None
  end.

Definition result_and_trace {A} (o : outcome (Z * A))
  : option (Z * list Event) :=
  match o with
  | Ret (rc, _) w => Some (rc, trace w)
  | _ => None
  end.

End Ref.

(** ** Further definitions used to state properties *)

Module Cover.
Import CLib Sys.

(** A carriage return or a line feed. *)
Definition is_line_break (c : ascii) : bool :=
  Ascii.eqb c CR || Ascii.eqb c LF.

(** The first address of a resolver's answer whose peer accepts. *)
Fixpoint first_accepting (ai : list Candidate) : option (string * list Z) :=
  match ai with
  | [] => None
  | Accepts peer_rx peer_wr :: _ => Some (peer_rx, peer_wr)
  | _ :: rp => first_accepting rp
  end.

(** An answer of the resolver on which no connection can be made. *)
Definition answer_fails (a : option (list Candidate)) : bool :=
  match a with
  | None => true
  | Some ai =>
      match first_accepting ai with
      | None => true
      | Some _ => false
      end
  end.

Definition valid_port (port : Z) : bool := (1 <=? port) && (port <=? 65535).

(** The message of the exception [connect] ends with. *)
Definition gave_up : string := "Failed to connect to Nav2 base".

(** An event of (re)connecting: the old socket closed, or the pause after
    a failed attempt. *)
Definition reconnecting (e : Event) : Prop :=
  match e with
  | EvClose | EvSleep _ => True
  | _ => False
  end.

(** What [connect] logs before its first attempt: the old connection, if
    there is one, is closed. *)
Definition closing (d : Nav2Driver.t) : list Event :=
  match Nav2Driver.remote_ d with
  | Some _ => [EvClose]
  | None => []
  end.

(** The configuration of [d'] is that of [d]. *)
Definition same_setup (d d' : Nav2Driver.t) : Prop :=
  Nav2Driver.robot_address_ d' = Nav2Driver.robot_address_ d
  /\ Nav2Driver.robot_port_ d' = Nav2Driver.robot_port_ d
  /\ Nav2Driver.robot_prefix_ d' = Nav2Driver.robot_prefix_ d
  /\ Nav2Driver.invert_odom_ d' = Nav2Driver.invert_odom_ d.

(** The driver [d'] holds a connection and has the configuration of
    [d]. *)
Definition connected_as (d d' : Nav2Driver.t) : Prop :=
  Nav2Driver.remote_ d' <> None /\ same_setup d d'.

(** The message of the exception [readLine] throws. *)
Definition bad_alloc : string := "std::bad_alloc".

(** An event that publishes nothing. *)
Definition unpublished (e : Event) : Prop :=
  match e with
  | EvTransform _ | EvPublish _ => False
  | _ => True
  end.

(** An event other than the closing of the connection. *)
Definition keeps_open (e : Event) : Prop :=
  match e with
  | EvClose => False
  | _ => True
  end.

(** The verb each command puts first on its line. *)
Definition verb (c : Ref.Command) : string :=
  match c with
  | Ref.SetTargetOrientation _ => "o"
  | Ref.SetAbsoluteVelocity _ _ => "av"
  | Ref.SetRelativeVelocity _ _ _ => "v"
  | Ref.SetPosition _ _ _ => "p"
  | Ref.Stop => "s"
  | Ref.TurnLeft _ | Ref.TurnRight _ => "lt"
  | Ref.Move _ _ | Ref.Forward _ | Ref.Back _ => "mv"
  | Ref.SetMaxSpeed _ => "sms"
  | Ref.SetMaxAccel _ => "sma"
  | Ref.SetMaxCorneringError _ => "smce"
  end.

(** What the caller of a query can see of it: the answer, the input left
    unread and the events so far; [Some None] stands for undefined
    behaviour. *)
Definition query_view (o : outcome (Ref.Answer * Nav2Remote.t))
  : option (option (Ref.Answer * string * list Event)) :=
  match o with
  | Ret (a, _) w => Some (Some (a, rx w, trace w))
  | Undefined => Some None
  | Throw _ _ | OutOfFuel => None
  end.

(** What the specification's reader makes of an input: the return code,
    the line as a C string, and the input left; -1 and nothing when no
    unfiltered line is complete. *)
Definition line_view (input : string) : Z * string * string :=
  match Ref.spec_filtered_line input with
  | None => (-1, EmptyString, EmptyString)
  | Some (l, rest) => (Z.of_nat (length l), c_str (l ++ [NUL]), rest)
  end.

(** The line [s] holds what the query [q] gives back: for
    [estimatePosition], a fourth field, if there is one, fits an [int];
    for [getQueueSize], there is a fourth field and it fits an [int]; for
    the other three, the line begins with a number. *)
Definition answers (q : Ref.Query) (s : string) : bool :=
  match q with
  | Ref.EstimatePosition _ _ _ =>
      from_option fits_int true (f4 (sscanf_lf_lf_lf_d s))
  | Ref.GetQueueSize => from_option fits_int false (f4 (sscanf_lf_lf_lf_d s))
  | _ =>
      match sscanf_lf s with
      | Some _ => true
      | None => false
      end
  end.

(** A line on which the first directive of a scan for a number fails in
    every C library: after white space and a sign it is at its end, or at a
    character that begins no spelling of a number (no digit, no point,
    and not the first letter of [inf] or [nan]). *)
Definition no_number (s : string) : bool :=
  match snd (scan_sign (skip_space s)) with
  | EmptyString => true
  | String c _ =>
      negb (isdigit c || Ascii.eqb c "." || Ascii.eqb (lower c) "i"
            || Ascii.eqb (lower c) "n")
  end.

(** The coming [write] of [len] bytes will be complete. *)
Definition write_completes (len : Z) (w : World) : Prop :=
  wr w = [] \/ exists later : list Z, wr w = len :: later.

(** [k] polls of the queue that found it busy, each followed by its sleep. *)
Definition busy_polls (k : nat) : list Event :=
  concat (replicate k [EvWrite ("q" +:+ nl) 2; EvUsleep 100000]).

End Cover.

(** * Properties *)

(** Two doubles that a computation tells apart are different. *)
Ltac float_discriminate H :=
  match type of H with
  | ?a = ?b =>
      apply (f_equal (fun f => PrimFloat.Leibniz.eqb f b)) in H;
      vm_compute in H; discriminate H
  end.

(** ** The model of the C library on known values *)

Section CLibChecks.
Import CLib.

(** [%lf] on values whose six-digit rendering is known: exact values, a
    value just below a decimal it is written as, a tie (1/128 =
    0.0078125, rounded to even), a value that rounds up into the next
    integer, zeros of both signs, and the infinities. *)
Lemma printf_lf_known :
  map printf_lf
    [1.5; 0; -0; 0.1; 2.675; 0.0078125; 0.9999995; 0.99999949; 1e22;
     -29.999999999999996; infinity; neg_infinity]%float
  = ["1.500000"; "0.000000"; "-0.000000"; "0.100000"; "2.675000";
     "0.007812"; "1.000000"; "0.999999"; "10000000000000000000000.000000";
     "-30.000000"; "inf"; "-inf"].
Proof. vm_compute. reflexivity. Qed.

(** [%lf] of [sscanf] agrees with the literals of the prover, which are
    rounded to the nearest double: short decimals, exponents, a subnormal,
    the largest double, an overflow, and the halfway cases above 2^53 and
    below the smallest subnormal; then the spellings that are not decimal
    numbers, and the ones that fail. *)
Lemma scan_lf_known :
  map (fun s => option_map fst (scan_lf s))
    ["0.1"; "-3.1"; "  90 "; "1.5x"; "3.141592653589793"; "1e-320";
     "1.7976931348623157e308"; "1e400"; "9007199254740993";
     "9007199254740995"; "2.4703282292062327e-324";
     "2.4703282292062328e-324"; "-0"; ".5"; "5."; "x"; "1e"; EmptyString;
     "-inf"; "Infinity"; "infinit"; "0x1.8p1"; "0x"; "0x."; "."; "-"]
  = [Some 0.1; Some (-3.1); Some 90; Some 1.5; Some 3.141592653589793;
     Some 1e-320; Some 1.7976931348623157e308; Some infinity;
     Some 9007199254740992; Some 9007199254740996; Some 0;
     Some 4.9406564584124654e-324; Some (-0); Some 0.5; Some 5;
     None; Some 1; None;
     Some neg_infinity; Some infinity; None; Some 3; None; Some 0; None;
     None]%float.
Proof. vm_compute. reflexivity. Qed.

(** The whole scan of an answer to [q], and of lines that end early. *)
Lemma sscanf_known :
  sscanf_lf_lf_lf_d "1.5 -2.25 90 3"
  = mkScan4 (Some 1.5%float) (Some (-2.25)%float) (Some 90%float) (Some 3)
  /\ sscanf_lf_lf_lf_d "1.5 -2.25"
     = mkScan4 (Some 1.5%float) (Some (-2.25)%float) None None
  /\ sscanf_lf_lf_lf_d "1 2 3 x" = mkScan4 (Some 1%float) (Some 2%float)
                                     (Some 3%float) None
  /\ sscanf_lf_lf_lf_d EmptyString = mkScan4 None None None None.
Proof. repeat split; vm_compute; reflexivity. Qed.

End CLibChecks.

(** ** The line reader *)

Section ReadLine.
Import CLib Sys Ref.

Lemma realloc_grow (buf : list ascii) (n : nat) :
  (length buf <= n)%nat ->
  Nav2Remote.realloc buf n = buf ++ replicate (n - length buf) NUL.
Proof.
  intros H. unfold Nav2Remote.realloc. now rewrite take_ge.
Qed.

Lemma length_realloc (buf : list ascii) (n : nat) :
  (length buf <= n)%nat -> length (Nav2Remote.realloc buf n) = n.
Proof.
  intros H. rewrite realloc_grow by exact H.
  rewrite length_app, length_replicate. lia.
Qed.

Lemma take_realloc (buf : list ascii) (n pos : nat) :
  (pos <= length buf)%nat -> (length buf <= n)%nat ->
  take pos (Nav2Remote.realloc buf n) = take pos buf.
Proof.
  intros Hp Hn. rewrite realloc_grow by exact Hn. now apply take_app_le.
Qed.

(** The growth step of an iteration.  When it goes through, the buffer is
    as long as the new [lineLen], which is the old one or 32 more, has
    room for position [pos] and the one after, and keeps its first [pos]
    bytes; the allocator's answers that are left are the old ones or all
    but the first.  It throws only on an allocation that fails, and
    overflows only when [pos] is within 33 of [INT_MAX]. *)
Lemma grow_step (heap : list bool) (line : list ascii) (lineLen pos : nat) :
  length line = lineLen -> (pos <= lineLen)%nat ->
  match Nav2Remote.grow_buffer heap line lineLen pos with
  | Nav2Remote.Grown heap' line' lineLen' =>
      length line' = lineLen' /\ (pos + 1 < lineLen')%nat
      /\ take pos line' = take pos line
      /\ (heap' = heap \/ heap' = tail heap)
      /\ (lineLen' = lineLen \/ lineLen' = (lineLen + 32)%nat)
  | Nav2Remote.NoMemory heap' => exists later, heap = false :: later
  | Nav2Remote.Overflows => int_max < Z.of_nat pos + 33
  end.
Proof.
  intros Hlen Hpos. unfold Nav2Remote.grow_buffer.
  destruct (Nat.leb_spec lineLen (pos + 1)) as [Hle | Hgt].
  - destruct (Z.leb_spec (Z.of_nat lineLen + 32) int_max) as [Hfit | Hover];
      [| lia].
    destruct heap as [| [|] later]; try (now eexists);
      rewrite length_realloc, take_realloc by lia;
      repeat split; try lia; auto.
  - repeat split; try lia; auto.
Qed.

Lemma memory_lasts_tail (heap heap' : list bool) :
  heap' = heap \/ heap' = tail heap ->
  Forall (fun ok : bool => ok = true) heap ->
  Forall (fun ok : bool => ok = true) heap'.
Proof.
  intros [-> | ->] H; [exact H |].
  destruct heap; [exact H | now inversion H].
Qed.

Lemma is_noise_head (l : list ascii) :
  Nav2Remote.is_noise (head l) = begins_with_sentinel l.
Proof. now destruct l. Qed.

(** [readLine]'s loop computes the filtered line of the specification:
    with the first [pos] bytes of the buffer holding the part [cur] of
    the current line, a loop that returns fails exactly when no unfiltered
    line is left, and otherwise leaves that line in the buffer,
    NUL-terminated, and returns its length.  The loop throws only when an
    allocation fails, and overflows [lineLen] only on an input of some
    two thousand million bytes. *)
Lemma readLine_loop_refines (input : string) :
  forall (heap : list bool) (line : list ascii) (lineLen pos : nat)
         (cur : list ascii),
    length line = lineLen -> length cur = pos -> take pos line = cur ->
    match Nav2Remote.readLine_loop input heap line lineLen pos with
    | Nav2Remote.Returns rc r' rest heap' =>
        wf r'
        /\ (Forall (fun ok : bool => ok = true) heap ->
            Forall (fun ok : bool => ok = true) heap')
        /\ match spec_filtered_line_from cur input with
           | None => rc = -1 /\ rest = EmptyString
           | Some (l, rest') =>
               rc = Z.of_nat (length l)
               /\ take (length l) (Nav2Remote.line r') = l
               /\ Nav2Remote.line r' !! length l = Some NUL
               /\ rest = rest'
           end
    | Nav2Remote.BadAlloc _ _ => ~ Forall (fun ok : bool => ok = true) heap
    | Nav2Remote.IntOverflow =>
        int_max < Z.of_nat (pos + String.length input) + 33
    end.
Proof.
  induction input as [| c rest IH];
    intros heap line lineLen pos cur Hlen Hcur Htake;
    (assert (Hpos : (pos <= lineLen)%nat)
       by (rewrite <- Hcur, <- Htake, length_take; lia));
    pose proof (grow_step heap line lineLen pos Hlen Hpos) as Hgrow;
    cbn [Nav2Remote.readLine_loop];
    (destruct (Nav2Remote.grow_buffer heap line lineLen pos)
       as [heap1 line' lineLen' | heap1 |];
     [ destruct Hgrow as (Hl & Hroom & Hpre & Hheap & _);
       pose proof (memory_lasts_tail heap heap1 Hheap) as Hmem
     | destruct Hgrow as [later Hfail]; rewrite Hfail; intros H;
       now inversion H
     | simpl; lia ]).
  - split; [exact Hl |]. split; [exact Hmem | easy].
  - assert (Hins : take pos (<[pos := c]> line') = cur).
    { rewrite take_insert_ge by lia. now rewrite Hpre. }
    assert (Hnext : forall line2 pos2 cur2,
      length line2 = lineLen' -> length cur2 = pos2 ->
      take pos2 line2 = cur2 -> (pos2 <= S pos)%nat ->
      forall spec,
      spec_filtered_line_from cur2 rest = spec ->
      match Nav2Remote.readLine_loop rest heap1 line2 lineLen' pos2 with
      | Nav2Remote.Returns rc r' rest0 heap' =>
          wf r'
          /\ (Forall (fun ok : bool => ok = true) heap ->
              Forall (fun ok : bool => ok = true) heap')
          /\ match spec with
             | None => rc = -1 /\ rest0 = EmptyString
             | Some (l, rest') =>
                 rc = Z.of_nat (length l)
                 /\ take (length l) (Nav2Remote.line r') = l
                 /\ Nav2Remote.line r' !! length l = Some NUL
                 /\ rest0 = rest'
             end
      | Nav2Remote.BadAlloc _ _ =>
          ~ Forall (fun ok : bool => ok = true) heap
      | Nav2Remote.IntOverflow =>
          int_max < Z.of_nat (pos + String.length (String c rest)) + 33
      end).
    { intros line2 pos2 cur2 H1 H2 H3 Hle spec <-.
      specialize (IH heap1 line2 lineLen' pos2 cur2 H1 H2 H3).
      destruct (Nav2Remote.readLine_loop rest heap1 line2 lineLen' pos2).
      - destruct IH as (Hwf & Hm & Hspec). auto.
      - auto.
      - simpl. lia. }
    simpl spec_filtered_line_from.
    destruct (Ascii.eqb c CR) eqn:Ecr.
    + apply (Hnext _ _ cur);
        [now rewrite length_insert | exact Hcur | exact Hins | lia
        | reflexivity].
    + destruct (Ascii.eqb c LF) eqn:Elf.
      * assert (Hnul : take pos (<[pos := NUL]> (<[pos := c]> line')) = cur).
        { rewrite take_insert_ge by lia. exact Hins. }
        assert (Hhead : <[pos := NUL]> (<[pos := c]> line') !! 0%nat
                        = if decide (pos = 0%nat) then Some NUL else head cur).
        { destruct (decide (pos = 0%nat)) as [-> | Hne].
          - apply list_lookup_insert_eq. rewrite length_insert. lia.
          - rewrite head_lookup, <- Hnul, lookup_take_lt by lia. reflexivity. }
        assert (Hnoise : Nav2Remote.is_noise
                           (<[pos := NUL]> (<[pos := c]> line') !! 0%nat)
                         = begins_with_sentinel cur).
        { rewrite Hhead, <- is_noise_head.
          destruct (decide (pos = 0%nat)) as [-> | Hne]; [| reflexivity].
          destruct cur; [reflexivity | discriminate]. }
        cbv zeta. rewrite Hnoise.
        destruct (begins_with_sentinel cur).
        -- apply (Hnext _ _ []);
             [now rewrite !length_insert | reflexivity | apply take_0 | lia
             | reflexivity].
        -- split; [unfold wf; simpl; now rewrite !length_insert |].
           split; [exact Hmem |].
           simpl. rewrite Hcur. repeat split; try reflexivity.
           ++ exact Hnul.
           ++ apply list_lookup_insert_eq. rewrite length_insert. lia.
      * apply (Hnext _ _ (cur ++ [c]));
          [now rewrite length_insert | rewrite length_app; simpl; lia |
          | lia | reflexivity].
        rewrite (take_S_r _ _ c).
        -- now rewrite Hins.
        -- apply list_lookup_insert_eq. lia.
Qed.

Lemma spec_line_not_noise (input : string) :
  forall (cur l : list ascii) (rest : string),
    spec_filtered_line_from cur input = Some (l, rest) ->
    begins_with_sentinel l = false.
Proof.
  induction input as [| c input IH]; intros cur l rest H; simpl in H.
  - discriminate.
  - destruct (Ascii.eqb c CR); [now apply IH in H |].
    destruct (Ascii.eqb c LF); [| now apply IH in H].
    destruct (begins_with_sentinel cur) eqn:E; [now apply IH in H |].
    now inversion H; subst.
Qed.

(** A discarded line leaves no mark: reading on from it is reading what
    follows it. *)
Lemma spec_skips_noise (s rest : string) :
  forall cur : list ascii,
    no_LF s = true ->
    begins_with_sentinel (cur ++ visible s) = true ->
    spec_filtered_line_from cur (s +:+ String LF rest)
    = spec_filtered_line_from [] rest.
Proof.
  induction s as [| c s IH]; intros cur Hlf Hnoise; simpl in *.
  - rewrite app_nil_r in Hnoise. now rewrite Hnoise.
  - apply andb_prop in Hlf as [Hc Hlf].
    destruct (Ascii.eqb c CR); [now apply IH |].
    destruct (Ascii.eqb c LF); [discriminate |].
    apply IH; [exact Hlf |]. now rewrite <- app_assoc.
Qed.

(** A line that does not begin with a sentinel is the next line handed
    over. *)
Lemma spec_takes_real (s rest : string) :
  forall cur : list ascii,
    no_LF s = true ->
    begins_with_sentinel (cur ++ visible s) = false ->
    spec_filtered_line_from cur (s +:+ String LF rest)
    = Some (cur ++ visible s, rest).
Proof.
  induction s as [| c s IH]; intros cur Hlf Hreal; simpl in *.
  - rewrite app_nil_r in *. now rewrite Hreal.
  - apply andb_prop in Hlf as [Hc Hlf].
    destruct (Ascii.eqb c CR); [now apply IH |].
    destruct (Ascii.eqb c LF); [discriminate |].
    rewrite IH; [now rewrite <- app_assoc | exact Hlf |].
    now rewrite <- app_assoc.
Qed.

Lemma append_assoc_s (a b c : string) : (a +:+ b) +:+ c = a +:+ b +:+ c.
Proof.
  induction a as [| ch a IH]; [reflexivity |].
  change (String ch ((a +:+ b) +:+ c) = String ch (a +:+ b +:+ c)).
  now rewrite IH.
Qed.

(** Any number of discarded lines, then a line that is handed over. *)
Lemma spec_after_noise (noise : list string) (real rest : string) :
  Forall (fun s => noise_line s = true) noise ->
  real_line real = true ->
  spec_filtered_line (lines noise +:+ real +:+ String LF rest)
  = Some (visible real, rest).
Proof.
  unfold spec_filtered_line, real_line.
  intros Hnoise Hreal. apply andb_prop in Hreal as [Hlf Hfirst].
  apply negb_true_iff in Hfirst.
  induction Hnoise as [| s noise Hs _ IH]; cbn [lines].
  - change (EmptyString +:+ real +:+ String LF rest)
      with (real +:+ String LF rest).
    now rewrite spec_takes_real.
  - apply andb_prop in Hs as [Hslf Hsfirst].
    rewrite !append_assoc_s.
    change (nl +:+ lines noise +:+ real +:+ String LF rest)
      with (String LF (lines noise +:+ real +:+ String LF rest)).
    now rewrite spec_skips_noise.
Qed.

(** The C string in a buffer whose first bytes are [l], then a NUL. *)
Lemma c_str_terminated (l : list ascii) :
  forall buf : list ascii,
    take (length l) buf = l -> buf !! length l = Some NUL ->
    c_str buf = c_str (l ++ [NUL]).
Proof.
  induction l as [| c l IH]; intros buf Htake Hnul.
  - destruct buf as [| b buf]; [discriminate |].
    simpl in Hnul. injection Hnul as ->. reflexivity.
  - destruct buf as [| b buf]; [discriminate |].
    simpl in Htake, Hnul. injection Htake as -> Htake.
    simpl. destruct (Ascii.eqb c NUL); [reflexivity |].
    f_equal. now apply IH.
Qed.

Lemma c_str_not_noise (l : list ascii) :
  begins_with_sentinel l = false ->
  begins_with_noise (c_str (l ++ [NUL])) = false.
Proof.
  destruct l as [| c l]; [reflexivity |]. simpl.
  destruct (Ascii.eqb c NUL); [reflexivity | intros H; exact H].
Qed.

(** [readLine] against the filtered line of the specification.  A call
    that returns has read exactly up to the end of that line, or to the end
    of the stream when there is none, and has changed nothing else of the
    world but the allocator's answers it used; a call throws only
    [std::bad_alloc], and only when an allocation fails; its behaviour is
    undefined only on an input too long for [lineLen]. *)
Lemma readLine_spec (r : Nav2Remote.t) (w : World) :
  wf r ->
  match Nav2Remote.readLine r w with
  | Ret (rc, r') w' =>
      wf r'
      /\ (exists heap', w' = set_rx (rx w') (set_heap heap' w))
      /\ (memory_lasts w -> memory_lasts w')
      /\ match spec_filtered_line (rx w) with
         | None => rc = -1 /\ rx w' = EmptyString
         | Some (l, rest) =>
             rc = Z.of_nat (length l)
             /\ take (length l) (Nav2Remote.line r') = l
             /\ Nav2Remote.line r' !! length l = Some NUL
             /\ rx w' = rest
         end
  | Throw what w' =>
      what = "std::bad_alloc" /\ ~ memory_lasts w
      /\ exists rest heap', w' = set_rx rest (set_heap heap' w)
  | Undefined => ~ short_input w
  | OutOfFuel => False
  end.
Proof.
  intros Hwf. unfold Nav2Remote.readLine, spec_filtered_line, memory_lasts,
    short_input.
  pose proof (readLine_loop_refines (rx w) (heap w) (Nav2Remote.line r)
                (Nav2Remote.lineLen r) 0 [] Hwf eq_refl (take_0 _)) as H.
  destruct (Nav2Remote.readLine_loop _ _ _ _ _) as [rc r' rest heap' | |].
  - destruct H as (Hwf' & Hmem & Hspec). split; [exact Hwf' |].
    split; [now exists heap' |]. split; [exact Hmem |].
    destruct (spec_filtered_line_from [] (rx w)) as [[l rest'] |];
      simpl; tauto.
  - split; [reflexivity |]. split; [exact H | now eexists; eexists].
  - simpl in H. lia.
Qed.

(** With memory to go on and an input that is not too long, [readLine]
    returns. *)
Lemma readLine_returns (r : Nav2Remote.t) (w : World) :
  wf r -> memory_lasts w -> short_input w ->
  exists (rc : Z) (r' : Nav2Remote.t) (heap' : list bool) (rest : string),
    Nav2Remote.readLine r w = Ret (rc, r') (set_rx rest (set_heap heap' w))
    /\ wf r' /\ Forall (fun ok : bool => ok = true) heap'
    /\ match spec_filtered_line (rx w) with
       | None => rc = -1 /\ rest = EmptyString
       | Some (l, rest') =>
           rc = Z.of_nat (length l)
           /\ take (length l) (Nav2Remote.line r') = l
           /\ Nav2Remote.line r' !! length l = Some NUL
           /\ rest = rest'
       end.
Proof.
  intros Hwf Hmem Hshort.
  pose proof (readLine_spec r w Hwf) as H.
  destruct (Nav2Remote.readLine r w) as [[rc r'] w' | what w' | |].
  - destruct H as (Hwf' & [heap' Hw'] & Hm & Hspec).
    exists rc, r', heap', (rx w'). rewrite <- Hw'.
    split; [reflexivity |]. split; [exact Hwf' |].
    split; [| exact Hspec].
    specialize (Hm Hmem). unfold memory_lasts in Hm.
    rewrite Hw' in Hm. exact Hm.
  - now destruct H as (_ & H & _).
  - contradiction.
  - contradiction.
Qed.

(** What [readLine] hands to its caller, read off the specification. *)
Lemma readLine_result (r : Nav2Remote.t) (w : World) :
  wf r -> memory_lasts w -> short_input w ->
  read_result (Nav2Remote.readLine r w)
  = match spec_filtered_line (rx w) with
    | None => Some (-1, EmptyString, EmptyString)
    | Some (l, rest) => Some (Z.of_nat (length l), c_str (l ++ [NUL]), rest)
    end.
Proof.
  intros Hwf Hmem Hshort.
  destruct (readLine_returns r w Hwf Hmem Hshort)
    as (rc & r' & heap' & rest & -> & _ & _ & H).
  simpl. destruct (spec_filtered_line (rx w)) as [[l rest'] |].
  - destruct H as (-> & Htake & Hnul & ->).
    rewrite (c_str_terminated l _ Htake Hnul).
    now destruct (Z.ltb_spec (Z.of_nat (length l)) 0); [lia |].
  - now destruct H as [-> ->].
Qed.

(** C9.  A line that begins with [|] or [+] is never handed to the caller
    of [readLine].  Whenever [readLine] returns a line, the string it
    leaves in the buffer does not begin with [|] or [+].  And when the
    input holds any number of such lines and then a line that begins
    with neither, the one call discards the former and returns the latter:
    its length, the line itself (carriage returns dropped) in the buffer,
    and the input after that line left unread.  (The call returns when no
    allocation fails and the input stays below the two thousand million
    bytes the [int] counter can take.) *)
Theorem readLine_discards_noise (r : Nav2Remote.t) (w : World) :
  wf r ->
  (forall rc r' w',
      Nav2Remote.readLine r w = Ret (rc, r') w' -> 0 <= rc ->
      begins_with_noise (c_str (Nav2Remote.line r')) = false)
  /\ (forall (noise : list string) (real rest : string),
         memory_lasts w -> short_input w ->
         Forall (fun s => noise_line s = true) noise ->
         real_line real = true ->
         rx w = lines noise +:+ real +:+ String LF rest ->
         read_result (Nav2Remote.readLine r w)
         = Some (Z.of_nat (length (visible real)),
                 c_str (visible real ++ [NUL]), rest)).
Proof.
  intros Hwf. split.
  - intros rc r' w' Hrun Hrc.
    pose proof (readLine_spec r w Hwf) as H. rewrite Hrun in H.
    destruct H as (_ & _ & _ & H).
    destruct (spec_filtered_line (rx w)) as [[l rest] |] eqn:Espec.
    + destruct H as (_ & Htake & Hnul & _).
      rewrite (c_str_terminated l _ Htake Hnul).
      apply c_str_not_noise. eapply spec_line_not_noise, Espec.
    + destruct H as [-> _]. lia.
  - intros noise real rest Hmem Hshort Hnoise Hreal Hrx.
    rewrite readLine_result by assumption.
    now rewrite Hrx, spec_after_noise.
Qed.

Lemma readLine_discards_noise_witness :
  read_result
    (Nav2Remote.readLine fresh
       (world (lines ["|status"; "+more"; "1 2 3 4"; "5 6 7 8"]) [] []))
  = Some (7, "1 2 3 4", lines ["5 6 7 8"]).
Proof.
  apply (proj2 (readLine_discards_noise fresh
                  (world (lines ["|status"; "+more"; "1 2 3 4"; "5 6 7 8"])
                     [] []) eq_refl)
           ["|status"; "+more"] "1 2 3 4" (lines ["5 6 7 8"]));
    [ constructor | unfold short_input, int_max; simpl; lia
    | repeat constructor | reflexivity | reflexivity ].
Defined.

End ReadLine.

(** ** Polling the queue: [getQueueSize] and [wait] *)

Section Wait.
Import CLib Sys Ref.

(** The allocator's answers across the growth step, whatever the state
    of the object. *)
Lemma grow_heap (heap : list bool) (line : list ascii) (lineLen pos : nat) :
  match Nav2Remote.grow_buffer heap line lineLen pos with
  | Nav2Remote.Grown heap' _ _ => heap' = heap \/ heap' = tail heap
  | Nav2Remote.NoMemory _ => exists later, heap = false :: later
  | Nav2Remote.Overflows => True
  end.
Proof.
  unfold Nav2Remote.grow_buffer.
  destruct (lineLen <=? pos + 1)%nat; [| now left].
  destruct (Z.of_nat lineLen + 32 <=? int_max); [| exact I].
  destruct heap as [| [|] later]; try (now right). now eexists.
Qed.

(** Reading never adds input, and a line that is returned was paid for
    with at least its line feed; the loop throws only when an allocation
    fails. *)
Lemma readLine_loop_consumes (input : string) :
  forall (heap : list bool) (line : list ascii) (lineLen pos : nat),
    match Nav2Remote.readLine_loop input heap line lineLen pos with
    | Nav2Remote.Returns rc _ rest heap' =>
        (String.length rest <= String.length input)%nat
        /\ (0 <= rc -> (String.length rest < String.length input)%nat)
        /\ (Forall (fun ok : bool => ok = true) heap ->
            Forall (fun ok : bool => ok = true) heap')
    | Nav2Remote.BadAlloc _ _ => ~ Forall (fun ok : bool => ok = true) heap
    | Nav2Remote.IntOverflow => True
    end.
Proof.
  induction input as [| c input IH]; intros heap line lineLen pos;
    cbn [Nav2Remote.readLine_loop];
    pose proof (grow_heap heap line lineLen pos) as Hheap;
    (destruct (Nav2Remote.grow_buffer heap line lineLen pos)
       as [heap1 line1 lineLen1 | heap1 |];
     [ pose proof (memory_lasts_tail heap heap1 Hheap) as Hmem
     | destruct Hheap as [later Hfail]; rewrite Hfail; intros H;
       now inversion H
     | exact I ]).
  - split; [lia |]. split; [intros H; lia | exact Hmem].
  - cbv zeta.
    destruct (Ascii.eqb c CR); [| destruct (Ascii.eqb c LF);
      [destruct (Nav2Remote.is_noise _);
         [| simpl; split; [lia | split; [intros _; lia | exact Hmem]]] |]];
      (* the three branches that go on reading *)
      match goal with
      | |- context [Nav2Remote.readLine_loop input ?h ?l ?n ?p] =>
          specialize (IH h l n p);
          destruct (Nav2Remote.readLine_loop input h l n p)
            as [rc r' rest heap' | |]; try exact I; auto
      end;
      destruct IH as (H1 & H2 & H3);
      (split; [simpl; lia |]);
      (split; [intros H; specialize (H2 H); simpl; lia | auto]).
Qed.

(** What [readLine] does to the world, whatever the state of the
    object: it takes input and answers of the allocator, and leaves the
    rest as it is; it throws only [std::bad_alloc], and only when an
    allocation fails. *)
Lemma readLine_frame (r : Nav2Remote.t) (w : World) :
  match Nav2Remote.readLine r w with
  | Ret (rc, _) w' =>
      (String.length (rx w') <= String.length (rx w))%nat
      /\ (0 <= rc -> (String.length (rx w') < String.length (rx w))%nat)
      /\ wr w' = wr w /\ net w' = net w /\ trace w' = trace w
      /\ (memory_lasts w -> memory_lasts w')
  | Throw what w' =>
      what = "std::bad_alloc" /\ net w' = net w /\ trace w' = trace w
      /\ ~ memory_lasts w
  | Undefined => True
  | OutOfFuel => False
  end.
Proof.
  unfold Nav2Remote.readLine, memory_lasts.
  pose proof (readLine_loop_consumes (rx w) (heap w) (Nav2Remote.line r)
                (Nav2Remote.lineLen r) 0) as H.
  destruct (Nav2Remote.readLine_loop _ _ _ _ _) as [rc r' rest heap' | |];
    simpl; tauto.
Qed.

(** [write]: the result comes from the world, the data goes to the
    trace. *)
Lemma sys_write_spec (data : string) (w : World) :
  exists (n : Z) (w1 : World),
    sys_write data w = Ret n w1
    /\ rx w1 = rx w /\ net w1 = net w /\ heap w1 = heap w
    /\ trace w1 = trace w ++ [EvWrite data n]
    /\ match wr w with
       | [] => n = Z.of_nat (String.length data)
       | m :: _ => n = m
       end.
Proof.
  unfold sys_write. destruct (wr w) as [| m later];
    do 2 eexists; repeat split.
Qed.

(** One poll of the queue, whatever the state of the object. *)
Lemma getQueueSize_frame (r : Nav2Remote.t) (w : World) :
  match Nav2Remote.getQueueSize r w with
  | Ret (rc, _) w' =>
      (String.length (rx w') <= String.length (rx w))%nat
      /\ net w' = net w
      /\ exists n : Z,
           trace w' = trace w ++ [EvWrite ("q" +:+ nl) n]
           /\ (0 <= rc ->
               n = 2 /\ (String.length (rx w') < String.length (rx w))%nat)
  | Throw what w' =>
      what = "std::bad_alloc" /\ net w' = net w
      /\ exists n : Z, trace w' = trace w ++ [EvWrite ("q" +:+ nl) n]
  | Undefined => True
  | OutOfFuel => False
  end.
Proof.
  unfold Nav2Remote.getQueueSize. unfold bind at 1.
  destruct (sys_write_spec ("q" +:+ nl) w)
    as (n & w1 & -> & Hrx & Hnet & _ & Htr & _).
  destruct (Z.eqb_spec n 2) as [-> | Hn]; cbn [negb].
  - unfold bind at 1. pose proof (readLine_frame r w1) as Hf.
    rewrite Hrx in Hf.
    destruct (Nav2Remote.readLine r w1) as [[rc1 r1] w2 | what w2 | |];
      try exact Hf; try exact I.
    + destruct Hf as (Hle & Hlt & _ & Hnet2 & Htr2 & _).
      destruct (Z.ltb_spec rc1 0);
        [| destruct (f4 _) as [q |];
           [destruct (fits_int q) |]];
        unfold ret, undefined; try exact I;
        (split; [lia |]); (split; [congruence |]);
        exists 2; (split; [congruence |]); intros Hq;
        (split; [reflexivity |]); lia.
    + destruct Hf as (-> & Hnet2 & Htr2 & _). split; [reflexivity |].
      split; [congruence |]. exists 2. congruence.
  - unfold ret. split; [rewrite Hrx; lia |]. split; [exact Hnet |].
    exists n. split; [exact Htr |]. intros Hq. lia.
Qed.

(** A poll that reports a queue of one or more has used up input. *)
Lemma getQueueSize_consumes (r r' : Nav2Remote.t) (w w' : World) (rc : Z) :
  Nav2Remote.getQueueSize r w = Ret (rc, r') w' -> 1 <= rc ->
  (String.length (rx w') < String.length (rx w))%nat.
Proof.
  intros H Hrc. pose proof (getQueueSize_frame r w) as Hf.
  rewrite H in Hf. destruct Hf as (_ & _ & n & _ & Hq).
  apply Hq. lia.
Qed.

(** One round of [wait]. *)
Lemma wait_loop_step (fuel : nat) (r : Nav2Remote.t) (w : World) :
  Nav2Remote.wait_loop (S fuel) r w
  = match Nav2Remote.getQueueSize r w with
    | Ret (rc, r') w' =>
        if rc <? 1 then Ret (rc, r') w'
        else Nav2Remote.wait_loop fuel r' (log (EvUsleep 100000) w')
    | Throw what w' => Throw what w'
    | Undefined => Undefined
    | OutOfFuel => OutOfFuel
    end.
Proof.
  simpl. unfold bind at 1.
  destruct (Nav2Remote.getQueueSize r w) as [[rc r'] w' | | |]; try reflexivity.
  destruct (rc <? 1); reflexivity.
Qed.

(** With more rounds than there are bytes to read, [wait] ends, and the
    number of spare rounds does not matter. *)
Lemma wait_loop_fuel (fuel1 : nat) :
  forall (fuel2 : nat) (r : Nav2Remote.t) (w : World),
    (String.length (rx w) < fuel1)%nat ->
    (String.length (rx w) < fuel2)%nat ->
    Nav2Remote.wait_loop fuel1 r w = Nav2Remote.wait_loop fuel2 r w
    /\ Nav2Remote.wait_loop fuel1 r w <> OutOfFuel.
Proof.
  induction fuel1 as [| fuel1 IH]; intros fuel2 r w H1 H2; [lia |].
  destruct fuel2 as [| fuel2]; [lia |].
  rewrite !wait_loop_step.
  pose proof (getQueueSize_frame r w) as Hret.
  destruct (Nav2Remote.getQueueSize r w) as [[rc r'] w' | | |] eqn:E;
    try easy.
  destruct (Z.ltb_spec rc 1); [easy |].
  pose proof (getQueueSize_consumes _ _ _ _ _ E ltac:(lia)) as Hc.
  apply IH; simpl; lia.
Qed.

(** C10.  [wait] polls [getQueueSize] until the queue is empty: it always
    comes to an end; a poll that reports less than 1 ends it at once with
    that value (0, success, for an empty queue; -1, failure, for the I/O
    error value), with no sleep after it; a poll that reports 1 or more
    is followed by a sleep of 100000 microseconds (100 ms) and the next
    poll.  For the polls 3, 2, 1, 0 it returns 0 after four polls with
    three sleeps, one between each two polls; when the stream ends after
    the first poll it returns -1 at the second. *)
Theorem wait_polls_until_empty :
  (forall r w, Nav2Remote.wait r w <> OutOfFuel)
  /\ (forall r w rc r' w',
         Nav2Remote.getQueueSize r w = Ret (rc, r') w' ->
         (rc < 1 -> Nav2Remote.wait r w = Ret (rc, r') w')
         /\ (1 <= rc ->
             Nav2Remote.wait r w
             = Nav2Remote.wait r' (log (EvUsleep 100000) w')))
  /\ result_and_trace
       (Nav2Remote.wait fresh
          (world (lines ["0 0 0 3"; "0 0 0 2"; "0 0 0 1"; "0 0 0 0"]) [] []))
     = Some (0, [EvWrite ("q" +:+ nl) 2; EvUsleep 100000;
                 EvWrite ("q" +:+ nl) 2; EvUsleep 100000;
                 EvWrite ("q" +:+ nl) 2; EvUsleep 100000;
                 EvWrite ("q" +:+ nl) 2])
  /\ result_and_trace
       (Nav2Remote.wait fresh (world (lines ["0 0 0 2"]) [] []))
     = Some (-1, [EvWrite ("q" +:+ nl) 2; EvUsleep 100000;
                  EvWrite ("q" +:+ nl) 2]).
Proof.
  split; [| split; [| split; reflexivity]].
  - intros r w. unfold Nav2Remote.wait.
    apply (wait_loop_fuel _ (S (String.length (rx w)))); lia.
  - intros r w rc r' w' E. unfold Nav2Remote.wait at 1 2.
    rewrite wait_loop_step, E. split; intros Hrc.
    + now destruct (Z.ltb_spec rc 1); [| lia].
    + destruct (Z.ltb_spec rc 1); [lia |].
      pose proof (getQueueSize_consumes _ _ _ _ _ E Hrc) as Hc.
      unfold Nav2Remote.wait. apply wait_loop_fuel; simpl; lia.
Qed.

End Wait.


(** ** Commands and queries on the wire *)

(** Unfolds a query down to the result of its [write]: first the case
    that the request was written in full, where the call of [readLine]
    comes next, then the case of a short write. *)
Ltac open_query q w :=
  destruct q; unfold Ref.run_query, Nav2Remote.estimatePosition,
    Nav2Remote.getMaxSpeed, Nav2Remote.getMaxAccel,
    Nav2Remote.getMaxCorneringError, Nav2Remote.query_double,
    Nav2Remote.getQueueSize, Ref.request, Sys.bind, Sys.ret, Sys.undefined;
  match goal with
  | |- context [Sys.sys_write ?req w] =>
      let n := fresh "n" in
      let w1 := fresh "w1" in
      let Hrx := fresh "Hrx" in
      let Hnet := fresh "Hnet" in
      let Hheap := fresh "Hheap" in
      let Htr := fresh "Htr" in
      let Hn := fresh "Hn" in
      destruct (sys_write_spec req w)
        as (n & w1 & -> & Hrx & Hnet & Hheap & Htr & Hn);
      cbv beta iota;
      match goal with
      | |- context [negb (n =? ?k)] =>
          let Hk := fresh "Hk" in
          destruct (Z.eqb_spec n k) as [Hk | Hk]
      end;
      cbn [negb]; cbv beta iota zeta
  end.

(** Decides the scan of the line. *)
Ltac close_query :=
  repeat match goal with
    | |- context [negb (from_option CLib.fits_int true ?o)] =>
        destruct (from_option CLib.fits_int true o); cbn [negb]; cbv beta iota zeta
    | |- context [match CLib.sscanf_lf ?s with Some _ => _ | None => _ end] =>
        destruct (CLib.sscanf_lf s); cbv beta iota zeta
    | |- context [match CLib.f4 ?s with Some _ => _ | None => _ end] =>
        destruct (CLib.f4 s); cbv beta iota zeta; cbn [from_option]
    | |- context [if CLib.fits_int ?z then _ else _] =>
        destruct (CLib.fits_int z); cbv beta iota zeta
    end.

Section Protocol.
Import CLib Sys Ref.

(** What the two closing lines of every command do: one [write] of the
    whole text, then 0 when it was written in full and -1 otherwise; the
    text must fit the 128 bytes of [msg]. *)
Lemma send_outcome (text : string) (w : World) :
  match Nav2Remote.send text w with
  | Ret rc w' =>
      exists n : Z,
        trace w' = trace w ++ [EvWrite text n] /\ rx w' = rx w
        /\ (n = Z.of_nat (String.length text) -> rc = 0)
        /\ (n <> Z.of_nat (String.length text) -> rc = -1)
  | Undefined => (128 <= String.length text)%nat
  | Throw _ _ | OutOfFuel => False
  end.
Proof.
  unfold Nav2Remote.send, undefined, bind, sys_write, ret.
  destruct (Nat.leb_spec 128 (String.length text)); [assumption |].
  destruct (wr w) as [| n wrs]; simpl.
  - exists (Z.of_nat (String.length text)). rewrite Z.eqb_refl.
    repeat split; try reflexivity. intros Hn. now contradict Hn.
  - exists n. destruct (Z.eqb_spec n (Z.of_nat (String.length text)));
      repeat split; try reflexivity; intros; try reflexivity; contradiction.
Qed.

(** Every command formats its text and sends it; for [stop], which has
    no buffer, the text is the two bytes it writes. *)
Lemma run_command_sends (c : Command) :
  run_command c = Nav2Remote.send (formatted c).
Proof. destruct c; reflexivity. Qed.

Lemma command_outcome (c : Command) (w : World) :
  match run_command c w with
  | Ret rc w' =>
      exists n : Z,
        trace w' = trace w ++ [EvWrite (formatted c) n] /\ rx w' = rx w
        /\ (n = Z.of_nat (String.length (formatted c)) -> rc = 0)
        /\ (n <> Z.of_nat (String.length (formatted c)) -> rc = -1)
  | Undefined => (128 <= String.length (formatted c))%nat
  | Throw _ _ | OutOfFuel => False
  end.
Proof. rewrite run_command_sends. apply send_outcome. Qed.

(** What a query does to the world, whatever the state of the object:
    one [write], of its request; it throws only [std::bad_alloc], and only
    when an allocation fails. *)
Lemma query_frame (q : Query) (r : Nav2Remote.t) (w : World) :
  match run_query q r w with
  | Ret _ w' =>
      net w' = net w
      /\ (String.length (rx w') <= String.length (rx w))%nat
      /\ (memory_lasts w -> memory_lasts w')
      /\ exists n : Z, trace w' = trace w ++ [EvWrite (request q) n]
  | Throw what w' =>
      what = "std::bad_alloc" /\ ~ memory_lasts w /\ net w' = net w
      /\ exists n : Z, trace w' = trace w ++ [EvWrite (request q) n]
  | Undefined => True
  | OutOfFuel => False
  end.
Proof.
  assert (Hmem : forall w1, heap w1 = heap w ->
            (memory_lasts w1 <-> memory_lasts w))
    by (intros w1 H; unfold memory_lasts; now rewrite H).
  open_query q w;
    try (split; [exact Hnet |]; split; [rewrite Hrx; lia |];
         split; [apply Hmem, Hheap | now exists n]);
    pose proof (readLine_frame r w1) as Hf;
    (destruct (Nav2Remote.readLine r w1) as [[rc r1] w2 | what w2 | |];
     cbv beta iota zeta; try exact I; try contradiction;
     [ destruct Hf as (Hle & _ & _ & Hnet2 & Htr2 & Hm);
       destruct (rc <? 0); cbv beta iota zeta; close_query; try exact I;
       (split; [congruence |]; split; [rewrite <- Hrx; exact Hle |];
        split; [intros H; apply Hm, Hmem, H; exact Hheap
               | exists n; congruence])
     | destruct Hf as (-> & Hnet2 & Htr2 & Hm);
       split; [reflexivity |];
       split; [intros H; apply Hm, Hmem, H; exact Hheap |];
       split; [congruence | exists n; congruence] ]).
Qed.

(** When its I/O fails a query returns the error value, having made its
    one [write]. *)
Lemma query_fails (q : Query) (r : Nav2Remote.t) (w : World) :
  wf r -> memory_lasts w -> short_input w -> io_fails q w ->
  exists (a : Answer) (r' : Nav2Remote.t) (w' : World) (n : Z),
    run_query q r w = Ret (a, r') w'
    /\ is_error a = true
    /\ trace w' = trace w ++ [EvWrite (request q) n].
Proof.
  intros Hwf Hmem Hshort Hfail.
  open_query q w;
    try (do 4 eexists; split; [reflexivity | split; [reflexivity | exact Htr]]);
    (destruct Hfail as [(m & later & Hwr & Hne) | Hnone];
     [ exfalso; apply Hne; rewrite Hwr in Hn; subst n; exact Hk |]);
    (destruct (readLine_returns r w1 Hwf)
       as (rc & r' & heap' & rest & -> & _ & _ & Hspec);
     [ unfold memory_lasts; now rewrite Hheap
     | unfold short_input; now rewrite Hrx |]);
    rewrite Hrx, Hnone in Hspec; destruct Hspec as [-> ->];
    cbv beta iota zeta; simpl;
    do 4 eexists; (split; [reflexivity | split; [reflexivity | exact Htr]]).
Qed.

(** C8.  I/O failure is signalled by the return value, never by an
    exception, and nothing is retried.  Every command makes exactly one
    [write], of the text it formats, and reads nothing; it returns 0 when
    the whole text was written and -1 (not zero) when fewer bytes were; its
    behaviour is undefined only when the text does not fit the 128 bytes
    of [msg], which is not a matter of I/O.  A query whose I/O fails (its
    [write] is short, or the stream ends before a line is complete, so
    that a [read] gives nothing) returns the error value -1 after the one
    [write] of its request.  The one exception a query can end in is the
    [std::bad_alloc] of [readLine], thrown when a [realloc] of the line
    buffer fails and at no other time: it reports that memory ran out, not
    an I/O failure.  (The query returns when no allocation fails and the
    input is shorter than the [int] counter of the buffer size can
    take.) *)
Theorem io_failure_is_a_sentinel :
  (forall (c : Command) (w : World),
      match run_command c w with
      | Ret rc w' =>
          exists n : Z,
            trace w' = trace w ++ [EvWrite (formatted c) n] /\ rx w' = rx w
            /\ (n = Z.of_nat (String.length (formatted c)) -> rc = 0)
            /\ (n <> Z.of_nat (String.length (formatted c)) -> rc = -1)
      | Undefined => (128 <= String.length (formatted c))%nat
      | Throw _ _ | OutOfFuel => False
      end)
  /\ (forall (q : Query) (r : Nav2Remote.t) (w : World),
         match run_query q r w with
         | Ret _ _ | Undefined => True
         | Throw what _ => what = "std::bad_alloc" /\ ~ memory_lasts w
         | OutOfFuel => False
         end)
  /\ (forall (q : Query) (r : Nav2Remote.t) (w : World),
         wf r -> memory_lasts w -> short_input w -> io_fails q w ->
         exists (a : Answer) (r' : Nav2Remote.t) (w' : World) (n : Z),
           run_query q r w = Ret (a, r') w'
           /\ is_error a = true
           /\ trace w' = trace w ++ [EvWrite (request q) n])
  /\ run_command (SetTargetOrientation 0) (world EmptyString [3] [])
     = Ret (-1) (mkWorld EmptyString [] [] [] clock0 0
                   [EvWrite ("o 0.000000" +:+ nl) 3])
  /\ run_query GetMaxSpeed fresh idle
     = Ret (ADouble (-1), Nav2Remote.mk (replicate 32 NUL) 32)
           (mkWorld EmptyString [] [] [] clock0 0
              [EvWrite ("qms" +:+ nl) 4])
  /\ run_query (EstimatePosition 1 2 3) fresh
       (world (lines ["4 5 6 0"]) [1] [])
     = Ret (APose (-1) 1 2 3, fresh)
           (mkWorld (lines ["4 5 6 0"]) [] [] [] clock0 0
              [EvWrite ("q" +:+ nl) 1]).
Proof.
  split; [exact command_outcome |].
  split.
  { intros q r w. pose proof (query_frame q r w) as H.
    destruct (run_query q r w); try exact I; [| exact H].
    now destruct H as (H1 & H2 & _). }
  split; [exact query_fails |].
  repeat split; reflexivity.
Qed.

(** C7.  [estimatePosition] and [getQueueSize] send the same request,
    the line [q], and read the same answer line: when the request is
    written in full and the line read holds the four fields [a b c q],
    [estimatePosition] returns 0 and leaves [a], [b] and [c] times pi/180
    (degrees made radians) in its three references, and [getQueueSize]
    returns the fourth field [q]; either call has written the one line [q]
    and read that one line. *)
Theorem position_and_queue_share_the_query
    (r : Nav2Remote.t) (w : World) (x0 y0 o0 : float)
    (w0 : World) (rc : Z) (r1 : Nav2Remote.t) (w1 : World)
    (a b c : float) (q : Z) :
  sys_write ("q" +:+ nl) w = Ret 2 w0 ->
  Nav2Remote.readLine r w0 = Ret (rc, r1) w1 ->
  0 <= rc ->
  sscanf_lf_lf_lf_d (c_str (Nav2Remote.line r1))
  = mkScan4 (Some a) (Some b) (Some c) (Some q) ->
  fits_int q = true ->
  Nav2Remote.estimatePosition r x0 y0 o0 w
  = Ret (0, (a, b, (c * (M_PI / 180))%float), r1) w1
  /\ Nav2Remote.getQueueSize r w = Ret (q, r1) w1
  /\ trace w1 = trace w ++ [EvWrite ("q" +:+ nl) 2].
Proof.
  intros Hwrite Hread Hrc Hscan Hfits.
  unfold Nav2Remote.estimatePosition, Nav2Remote.getQueueSize, bind.
  rewrite Hwrite. simpl. rewrite Hread.
  destruct (Z.ltb_spec rc 0); [lia |].
  rewrite Hscan. simpl. rewrite Hfits. repeat split.
  pose proof (readLine_frame r w0) as Hf. rewrite Hread in Hf.
  destruct Hf as (_ & _ & _ & _ & -> & _).
  destruct (sys_write_spec ("q" +:+ nl) w) as (n & w2 & E & _ & _ & _ & Htr & _).
  rewrite Hwrite in E. now injection E as <- <-.
Qed.

Lemma position_and_queue_share_the_query_witness :
  exists (r1 : Nav2Remote.t) (w1 : World),
    Nav2Remote.estimatePosition fresh 0 0 0
      (world (lines ["1.5 -2.25 90 3"]) [] [])
    = Ret (0, (1.5, -2.25, 90 * (M_PI / 180))%float, r1) w1
    /\ Nav2Remote.getQueueSize fresh
         (world (lines ["1.5 -2.25 90 3"]) [] [])
       = Ret (3, r1) w1
    /\ trace w1 = [EvWrite ("q" +:+ nl) 2].
Proof.
  eexists; eexists.
  eapply (position_and_queue_share_the_query fresh
            (world (lines ["1.5 -2.25 90 3"]) [] []) 0 0 0
            _ _ _ _ 1.5 (-2.25) 90 3).
  - vm_compute. reflexivity.
  - vm_compute. reflexivity.
  - vm_compute. discriminate.
  - vm_compute. reflexivity.
  - vm_compute. reflexivity.
Defined.

(** The text [setRelativeVelocity] writes. *)
Lemma setRelativeVelocity_text (vx vy turnRate : float) (w : World) :
  match Nav2Remote.setRelativeVelocity vx vy turnRate w with
  | Ret rc w' =>
      exists n : Z,
        trace w' =
        trace w ++
          [EvWrite ("v " +:+ printf_lf vx +:+ " " +:+ printf_lf vy +:+ " "
                    +:+ printf_lf (turnRate * (180 / M_PI)) +:+ nl) n]
  | Undefined => True
  | Throw _ _ | OutOfFuel => False
  end.
Proof.
  unfold Nav2Remote.setRelativeVelocity.
  match goal with
  | |- context [Nav2Remote.send ?text w] =>
      pose proof (send_outcome text w) as H;
      destruct (Nav2Remote.send text w); try easy
  end.
  destruct H as (n & Htrace & _). now exists n.
Qed.

(** C6 as stated fails: the text written for vx = 1.5, vy = 0.0 and a turn
    rate of -30 degrees is not [v 1.5 0.0 -30]. *)
Lemma relative_velocity_text_is_not_short :
  wire_text (Nav2Remote.setRelativeVelocity 1.5 0 (-30 * (M_PI / 180)) idle)
  <> Some ("v 1.5 0.0 -30" +:+ nl).
Proof. vm_compute. discriminate. Qed.

(** C6, amended.  [setRelativeVelocity] writes [v], then [vx], [vy] and the
    turn rate times 180/pi, each as [%lf] prints it (fixed notation, six
    digits after the point), then a line feed; only the turn rate is
    converted.  For vx = 1.5, vy = 0.0 and a turn rate of -30 degrees in
    radians (written as -30 * (pi/180), as -30 * pi / 180 or as -(pi/6), all
    the same double) the text is [v 1.500000 0.000000 -30.000000] and a
    line feed. *)
Theorem relative_velocity_wire_format :
  (forall (vx vy turnRate : float) (w : World),
      match Nav2Remote.setRelativeVelocity vx vy turnRate w with
      | Ret rc w' =>
          exists n : Z,
            trace w' =
            trace w ++
              [EvWrite ("v " +:+ printf_lf vx +:+ " " +:+ printf_lf vy +:+ " "
                        +:+ printf_lf (turnRate * (180 / M_PI)) +:+ nl) n]
      | Undefined => True
      | Throw _ _ | OutOfFuel => False
      end)
  /\ wire_text
       (Nav2Remote.setRelativeVelocity 1.5 0 (-30 * (M_PI / 180)) idle)
     = Some ("v 1.500000 0.000000 -30.000000" +:+ nl)
  /\ (-30 * M_PI / 180 = -30 * (M_PI / 180))%float
  /\ (- (M_PI / 6) = -30 * (M_PI / 180))%float
  /\ returned (Nav2Remote.setRelativeVelocity 1.5 0 (-30 * (M_PI / 180)) idle)
     = Some 0.
Proof.
  split; [exact setRelativeVelocity_text |].
  repeat split; vm_compute; reflexivity.
Qed.

End Protocol.


(** ** The odometry integrator *)

Section Odometry.
Import CLib Msgs Sys Ref Nav2Driver.


(** [updateWithAbsolute] feeds [updateWithRelative] the difference of the
    sample and the stored field [prev_], and it is this difference that
    ends up in [prev_]. *)
Lemma updateWithAbsolute_unfold (s : Pose2D) (o : BaseOdometry) (w : World) :
  updateWithAbsolute s o w
  = match updateWithRelative (minus s (prev_ o)) o w with
    | Ret o' w' =>
        Ret (mkBaseOdometry (pose_ o') (vel_ o') (minus s (prev_ o))
               (offset_ o') (last_time_ o')) w'
    | Throw what w' => Throw what w'
    | Undefined => Undefined
    | OutOfFuel => OutOfFuel
    end.
Proof. reflexivity. Qed.

Lemma updateWithRelative_returns (delta : Pose2D) (o : BaseOdometry)
    (w : World) :
  exists (t1 t2 : Time) (w' : World),
    updateWithRelative delta o w
    = Ret (mkBaseOdometry (add_assign (pose_ o) delta)
             (div_assign delta (Duration_toSec (t1 - last_time_ o)))
             (prev_ o) (offset_ o) t2) w'.
Proof.
  unfold updateWithRelative, bind, now, ret. simpl.
  do 3 eexists. reflexivity.
Qed.

(** C1 (the code departs from it).  After [updateWithAbsolute(s)] the
    field [prev_] holds the difference [s - prev_] that was computed, not
    the sample [s]: [operator-] is [operator-=] on the parameter, so the
    assignment [prev_ = abs] that follows reads the changed parameter.
    From start-up, after the samples (1,0,0) and (2,0,0) the field holds
    (1,0,0), which is not the last sample (2,0,0); and a driver whose
    device reports x = 1, 2, 3 publishes x = 1, 2, 4, the third difference
    being taken against 1 instead of 2. *)
Theorem updateWithAbsolute_stores_the_difference :
  (forall (s : Pose2D) (o : BaseOdometry) (w : World),
      exists (o' : BaseOdometry) (w' : World),
        updateWithAbsolute s o w = Ret o' w'
        /\ prev_ o' = sub_assign s (prev_ o))
  /\ option_map prev_
       (returned (feed [mkPose2D 1 0 0; mkPose2D 2 0 0] idle))
     = Some (mkPose2D 1 0 0)
  /\ mkPose2D 1 0 0 <> mkPose2D 2 0 0
  /\ published_by (run robot 3 steady_advance)
     = Some [mkPose2D 1 0 0; mkPose2D 2 0 0; mkPose2D 4 0 0].
Proof.
  split; [| split; [| split; [| vm_compute; reflexivity]]].
  - intros s o w. rewrite updateWithAbsolute_unfold.
    destruct (updateWithRelative_returns (minus s (prev_ o)) o w)
      as (t1 & t2 & w' & ->).
    do 2 eexists. split; reflexivity.
  - vm_compute. reflexivity.
  - intros H. apply (f_equal x) in H. simpl in H. float_discriminate H.
Qed.

(** The rule of [operator-=] on the heading, case by case. *)
Lemma sub_assign_th (a b : Pose2D) :
  th (sub_assign a b)
  = if (M_PI <? PrimFloat.abs (th a - th b))%float then
      if (0 <? th b)%float then (th a + 2 * M_PI - th b)%float
      else (th a - 2 * M_PI - th b)%float
    else (th a - th b)%float.
Proof.
  unfold sub_assign. simpl.
  destruct (M_PI <? PrimFloat.abs (th a - th b))%float; [| reflexivity].
  destruct (0 <? th b)%float; reflexivity.
Qed.

(** C2 (the code departs from it).  [operator-=] corrects the heading by
    the stated rule (2 pi added when the magnitude of the raw difference
    exceeds pi and the second operand's heading is positive, subtracted
    when it is not), and from start-up the samples 3.0 and -3.1 give the
    difference 0.183....  But the difference is taken against the field
    [prev_], which after the second sample no longer holds the previous
    sample (see C1): after the samples 2.9, 3.0, -3.1 the difference
    computed for the pair 3.0, -3.1 is 3.083..., not 0.183..., and the
    accumulated heading is 6.083.... *)
Theorem heading_difference_uses_stored_field :
  (forall a b : Pose2D,
      th (sub_assign a b)
      = if (M_PI <? PrimFloat.abs (th a - th b))%float then
          if (0 <? th b)%float then (th a + 2 * M_PI - th b)%float
          else (th a - 2 * M_PI - th b)%float
        else (th a - th b)%float)
  /\ (forall (s : Pose2D) (o : BaseOdometry) (w : World),
         exists (o' : BaseOdometry) (w' : World),
           updateWithAbsolute s o w = Ret o' w'
           /\ pose_ o' = add_assign (pose_ o) (sub_assign s (prev_ o)))
  /\ (exists o : BaseOdometry,
         returned (feed [heading 3.0] idle) = Some o
         /\ prev_ o = heading 3.0
         /\ th (sub_assign (heading (-3.1)) (prev_ o))
            = 0.18318530717958614%float)
  /\ (exists o : BaseOdometry,
         returned (feed [heading 2.9; heading 3.0] idle) = Some o
         /\ prev_ o <> heading 3.0
         /\ th (sub_assign (heading (-3.1)) (prev_ o))
            = 3.0831853071795861%float)
  /\ option_map (fun o => th (pose_ o))
       (returned (feed [heading 2.9; heading 3.0; heading (-3.1)] idle))
     = Some 6.0831853071795861%float.
Proof.
  split; [exact sub_assign_th |].
  split.
  { intros s o w. rewrite updateWithAbsolute_unfold.
    destruct (updateWithRelative_returns (minus s (prev_ o)) o w)
      as (t1 & t2 & w' & ->).
    do 2 eexists. split; reflexivity. }
  split.
  { eexists. split; [vm_compute; reflexivity |].
    split; vm_compute; reflexivity. }
  split.
  { eexists. split; [vm_compute; reflexivity |].
    split; [| vm_compute; reflexivity].
    vm_compute. intros H. apply (f_equal th) in H. simpl in H.
  float_discriminate H. }
  vm_compute. reflexivity.
Qed.

(** C4 (the code departs from it).  The covariance of every message is
    the same diagonal array, and all entries off the diagonal are zero;
    but [^] is exclusive or, not a power: the entries for x and y are
    [10 ^ -3 = -9], which is negative, those for z, roll and pitch are
    [10 ^ 6 = 12], and the one for yaw is [10 ^ 3 = 9]. *)
Theorem covariance_is_xor :
  (forall (robot_prefix : string) (o : BaseOdometry),
      pose_covariance (getMessage robot_prefix o) = covariance
      /\ twist_covariance (getMessage robot_prefix o) = covariance)
  /\ covariance
     = [ -9;  0;  0;  0;  0;  0;
          0; -9;  0;  0;  0;  0;
          0;  0; 12;  0;  0;  0;
          0;  0;  0; 12;  0;  0;
          0;  0;  0;  0; 12;  0;
          0;  0;  0;  0;  0;  9 ]%float
  /\ (-9 <? 0)%float = true.
Proof. repeat split; reflexivity. Qed.

End Odometry.

(** ** The driver: reconnection and velocity commands *)

Section Driver.
Import CLib Msgs Sys Ref Nav2Driver.

(** Trying the addresses neither writes nor touches the list of answers. *)
Lemma connect_first_outcome (ai : list Candidate) (w : World) :
  match Nav2Remote.connect_first ai w with
  | Ret _ w' | Throw _ w' => trace w' = trace w /\ net w' = net w
  | Undefined | OutOfFuel => False
  end.
Proof.
  induction ai as [| [| | peer_rx peer_wr] ai IH]; simpl; try exact IH.
  - unfold throw. now split.
  - now split.
Qed.

(** The constructor of the client logs nothing; when it succeeds it has
    used up an answer of the resolver. *)
Lemma new_outcome (address : string) (port : Z) (w : World) :
  match Nav2Remote.new address port w with
  | Ret _ w' =>
      trace w' = trace w /\ (length (net w') < length (net w))%nat
  | Throw _ w' =>
      trace w' = trace w /\ (length (net w') <= length (net w))%nat
  | Undefined | OutOfFuel => False
  end.
Proof.
  unfold Nav2Remote.new.
  destruct ((port <? 1) || (65535 <? port)); [unfold throw; now split |].
  destruct (net w) as [| [ai |] later] eqn:Enet;
    [split; [reflexivity | rewrite Enet; lia] |
    | simpl; split; [reflexivity | lia]].
  pose proof (connect_first_outcome ai (set_net later w)) as H.
  destruct (Nav2Remote.connect_first ai (set_net later w));
    try contradiction; destruct H as [-> ->]; simpl; split;
    try reflexivity; lia.
Qed.

Lemma Forall_quiet_writes_only (text : string) (evs : list Event) :
  Forall quiet evs -> Forall (writes_only text) evs.
Proof.
  intros Hq. eapply Forall_impl; [exact Hq |].
  intros [] H; simpl in *; try exact I. contradiction.
Qed.

(** The attempts to connect leave the integrator alone, write nothing, and
    succeed only by using up an answer of the resolver. *)
Lemma connect_retry_outcome (attempts : nat) (address : string) (port : Z)
    (d : t) :
  forall w : World,
    match connect_retry attempts address port d w with
    | Ret d' w' =>
        base_odom_ d' = base_odom_ d
        /\ (exists evs, extends w w' evs /\ Forall quiet evs)
        /\ (length (net w') < length (net w))%nat
    | Throw _ w' =>
        (exists evs, extends w w' evs /\ Forall quiet evs)
        /\ (length (net w') <= length (net w))%nat
    | Undefined | OutOfFuel => False
    end.
Proof.
  induction attempts as [| attempts IH]; intros w; simpl.
  - unfold throw. split; [| lia]. exists []. split; [| constructor].
    unfold extends. now rewrite app_nil_r.
  - unfold try_catch, bind at 1.
    pose proof (new_outcome address port w) as Hnew.
    destruct (Nav2Remote.new address port w) as [r w1 | what w1 | |];
      try contradiction; destruct Hnew as [Htr Hnet].
    + unfold ret. split; [reflexivity |]. split; [| exact Hnet].
      exists []. split; [| constructor]. unfold extends.
      now rewrite app_nil_r.
    + unfold bind, emit.
      specialize (IH (log (EvSleep 0.2) w1)).
      destruct (connect_retry attempts address port d (log (EvSleep 0.2) w1))
        as [d' w' | what' w' | |]; try contradiction.
      * destruct IH as (Hodom & (evs & Hext & Hq) & Hlt).
        split; [exact Hodom |]. split; [| simpl in Hlt; lia].
        exists (EvSleep 0.2 :: evs). split; [| constructor; [exact I | exact Hq]].
        unfold extends in *. rewrite Hext. simpl. rewrite Htr.
        now rewrite <- app_assoc.
      * destruct IH as ((evs & Hext & Hq) & Hle).
        split; [| simpl in Hle; lia].
        exists (EvSleep 0.2 :: evs). split; [| constructor; [exact I | exact Hq]].
        unfold extends in *. rewrite Hext. simpl. rewrite Htr.
        now rewrite <- app_assoc.
Qed.

(** [connect] writes nothing, and succeeds only by using up an answer of
    the resolver. *)
Lemma connect_outcome (address : string) (port : Z) (d : t) (w : World) :
  match connect address port d w with
  | Ret d' w' =>
      (exists evs, extends w w' evs /\ Forall quiet evs)
      /\ (length (net w') < length (net w))%nat
  | Throw _ w' =>
      (exists evs, extends w w' evs /\ Forall quiet evs)
      /\ (length (net w') <= length (net w))%nat
  | Undefined | OutOfFuel => False
  end.
Proof.
  unfold connect. destruct (remote_ d) as [r |].
  - unfold bind at 1. unfold bind at 1. unfold Nav2Remote.delete.
    unfold bind at 1. unfold BaseOdometry_at, bind at 1, now, ret.
    match goal with
    | |- context [connect_retry 5 address port ?d0 ?w0] =>
        pose proof (connect_retry_outcome 5 address port d0 w0) as H;
        destruct (connect_retry 5 address port d0 w0)
          as [d' w' | what' w' | |]; try contradiction
    end.
    + destruct H as (_ & (evs & Hext & Hq) & Hlt). split; [| exact Hlt].
      exists (EvClose :: evs). split; [| constructor; [exact I | exact Hq]].
      unfold extends in *. rewrite Hext. simpl. now rewrite <- app_assoc.
    + destruct H as ((evs & Hext & Hq) & Hle). split; [| exact Hle].
      exists (EvClose :: evs). split; [| constructor; [exact I | exact Hq]].
      unfold extends in *. rewrite Hext. simpl. now rewrite <- app_assoc.
  - unfold bind at 1, ret.
    pose proof (connect_retry_outcome 5 address port d w) as H.
    destruct (connect_retry 5 address port d w) as [d' w' | what' w' | |];
      try contradiction.
    + now destruct H as (_ & Hext & Hlt).
    + exact H.
Qed.

(** The attempts to connect leave the integrator alone. *)
Lemma connect_retry_keeps_odom (attempts : nat) (address : string) (port : Z)
    (d : t) (w : World) :
  match connect_retry attempts address port d w with
  | Ret d' _ => base_odom_ d' = base_odom_ d
  | _ => True
  end.
Proof.
  pose proof (connect_retry_outcome attempts address port d w) as H.
  destruct (connect_retry attempts address port d w); try exact I.
  now destruct H as [H _].
Qed.

(** C3 (the code departs from it).  On a reconnect the new offset is
    [getPose()], the accumulated pose alone: the offset in force before is
    not added.  The first reconnect keeps the published pose (the offset
    was zero), a later one does not.  With three connections in a row, the
    device reporting (1,0,0), then (0,0,0) and (2,0,0) after the first
    reconnect, then (0,0,0) after the second, the published poses are
    (1,0,0), (1,0,0), (3,0,0) and then (2,0,0): the pose falls back from
    (3,0,0) to (2,0,0) across the second reconnect. *)
Theorem reconnect_offset_is_pose_alone :
  (forall (address : string) (port : Z) (d : t) (r : Nav2Remote.t)
          (w : World),
      remote_ d = Some r ->
      match connect address port d w with
      | Ret d' _ =>
          offset_ (base_odom_ d') = pose_ (base_odom_ d)
          /\ pose_ (base_odom_ d') = origin
          /\ prev_ (base_odom_ d') = origin
      | _ => True
      end)
  /\ published_by (run robot 4 two_reconnects)
     = Some [mkPose2D 1 0 0; mkPose2D 1 0 0; mkPose2D 3 0 0; mkPose2D 2 0 0]
  /\ mkPose2D 2 0 0 <> mkPose2D 3 0 0.
Proof.
  split; [| split].
  - intros address port d r w Hlive. unfold connect. rewrite Hlive.
    unfold bind at 1. unfold bind at 1. unfold Nav2Remote.delete.
    unfold bind at 1. unfold BaseOdometry_at, bind at 1, now, ret.
    match goal with
    | |- context [connect_retry 5 address port ?d0 ?w0] =>
        pose proof (connect_retry_keeps_odom 5 address port d0 w0) as H;
        destruct (connect_retry 5 address port d0 w0); try exact I
    end.
    rewrite H. simpl. repeat split.
  - vm_compute. reflexivity.
  - intros H. apply (f_equal x) in H. simpl in H. float_discriminate H.
Qed.

Lemma setRelativeVelocity_keeps_net (vx vy turnRate : float) (w : World) :
  match Nav2Remote.setRelativeVelocity vx vy turnRate w with
  | Ret _ w' => net w' = net w
  | _ => True
  end.
Proof.
  unfold Nav2Remote.setRelativeVelocity, Nav2Remote.send, undefined, bind,
    sys_write, ret.
  destruct (128 <=? _)%nat; [exact I |].
  destruct (wr w); reflexivity.
Qed.

(** What [estimatePosition] does to the world, whatever the state of
    the object. *)
Lemma estimatePosition_frame (r : Nav2Remote.t) (x0 y0 o0 : float)
    (w : World) :
  match Nav2Remote.estimatePosition r x0 y0 o0 w with
  | Ret _ w' =>
      net w' = net w
      /\ (String.length (rx w') <= String.length (rx w))%nat
      /\ (memory_lasts w -> memory_lasts w')
      /\ exists n : Z, trace w' = trace w ++ [EvWrite ("q" +:+ nl) n]
  | Throw what w' =>
      what = "std::bad_alloc" /\ ~ memory_lasts w /\ net w' = net w
      /\ exists n : Z, trace w' = trace w ++ [EvWrite ("q" +:+ nl) n]
  | Undefined => True
  | OutOfFuel => False
  end.
Proof.
  pose proof (query_frame (EstimatePosition x0 y0 o0) r w) as H.
  unfold run_query, bind in H.
  destruct (Nav2Remote.estimatePosition r x0 y0 o0 w)
    as [[[rc [[px py] po]] r1] w1 | what w1 | |]; exact H.
Qed.

Lemma extends_trans (w w1 w2 : World) (evs1 evs2 : list Event) :
  extends w w1 evs1 -> extends w1 w2 evs2 -> extends w w2 (evs1 ++ evs2).
Proof.
  unfold extends. intros H1 H2. now rewrite H2, H1, app_assoc.
Qed.

(** The loop of [setVelocity] ends within its bound, and every [write] it
    makes, on the first connection or after any reconnect, is the same
    text. *)
Lemma send_velocity_outcome (vn vs turnRate : float) (fuel : nat) :
  forall (d : t) (w : World),
    (length (net w) < fuel)%nat ->
    match send_velocity fuel vn vs turnRate d w with
    | Ret _ w' | Throw _ w' =>
        exists evs,
          extends w w' evs
          /\ Forall (writes_only
                       ("v " +:+ printf_lf vn +:+ " " +:+ printf_lf vs +:+ " "
                        +:+ printf_lf (turnRate * (180 / M_PI)) +:+ nl)) evs
    | Undefined => True
    | OutOfFuel => False
    end.
Proof.
  set (text := "v " +:+ printf_lf vn +:+ " " +:+ printf_lf vs +:+ " "
               +:+ printf_lf (turnRate * (180 / M_PI)) +:+ nl).
  assert (Hagain : forall fuel' d w,
    (forall d1 w1, (length (net w1) < fuel')%nat ->
       match send_velocity fuel' vn vs turnRate d1 w1 with
       | Ret _ w' | Throw _ w' =>
           exists evs, extends w1 w' evs /\ Forall (writes_only text) evs
       | Undefined => True
       | OutOfFuel => False
       end) ->
    (length (net w) < S fuel')%nat ->
    match (d1 <- connect (robot_address_ d) (robot_port_ d) d ;;
           send_velocity fuel' vn vs turnRate d1) w with
    | Ret _ w' | Throw _ w' =>
        exists evs, extends w w' evs /\ Forall (writes_only text) evs
    | Undefined => True
    | OutOfFuel => False
    end).
  { intros fuel' d w IH Hfuel. unfold bind.
    pose proof (connect_outcome (robot_address_ d) (robot_port_ d) d w) as Hc.
    destruct (connect (robot_address_ d) (robot_port_ d) d w)
      as [d1 w1 | what w1 | |]; try contradiction.
    - destruct Hc as ((evs1 & Hext1 & Hq1) & Hlt).
      specialize (IH d1 w1 ltac:(lia)).
      destruct (send_velocity fuel' vn vs turnRate d1 w1)
        as [d2 w2 | what w2 | |]; try easy;
        destruct IH as (evs2 & Hext2 & Hw2); exists (evs1 ++ evs2);
        (split; [eapply extends_trans; eassumption |]);
        apply Forall_app; split;
        [now apply Forall_quiet_writes_only | assumption
        | now apply Forall_quiet_writes_only | assumption].
    - destruct Hc as ((evs1 & Hext1 & Hq1) & _). exists evs1.
      split; [exact Hext1 | now apply Forall_quiet_writes_only]. }
  induction fuel as [| fuel IH]; intros d w Hfuel; [lia |].
  cbn [send_velocity]. destruct (remote_ d) as [r |].
  - unfold bind at 1.
    pose proof (setRelativeVelocity_text vn vs turnRate w) as Htext.
    pose proof (setRelativeVelocity_keeps_net vn vs turnRate w) as Hnet.
    destruct (Nav2Remote.setRelativeVelocity vn vs turnRate w)
      as [rc w1 | what w1 | |]; try easy.
    destruct Htext as [n Htr].
    destruct (rc <? 0).
    + specialize (Hagain fuel d w1 IH ltac:(rewrite Hnet; exact Hfuel)).
      destruct ((d1 <- connect (robot_address_ d) (robot_port_ d) d ;;
                 send_velocity fuel vn vs turnRate d1) w1)
        as [d2 w2 | what w2 | |]; try easy;
        destruct Hagain as (evs2 & Hext2 & Hw2);
        exists ([EvWrite text n] ++ evs2);
        (split; [eapply extends_trans; [exact Htr | exact Hext2] |]);
        apply Forall_app; split; try assumption;
        constructor; [reflexivity | constructor | reflexivity | constructor].
    + unfold ret. exists [EvWrite text n]. split; [exact Htr |].
      constructor; [reflexivity | constructor].
  - apply Hagain; assumption.
Qed.

(** The loop of [publishOdometry] ends within its bound. *)
Lemma poll_position_ends (fuel : nat) :
  forall (data : Pose2D) (d : t) (w : World),
    (length (net w) < fuel)%nat ->
    poll_position fuel data d w <> OutOfFuel.
Proof.
  induction fuel as [| fuel IH]; intros data d w Hfuel; [lia |].
  assert (Hagain : forall data' d0 w0,
    (length (net w0) <= length (net w))%nat ->
    (d1 <- connect (robot_address_ d0) (robot_port_ d0) d0 ;;
     poll_position fuel data' d1) w0 <> OutOfFuel).
  { intros data' d0 w0 Hle. unfold bind.
    pose proof (connect_outcome (robot_address_ d0) (robot_port_ d0) d0 w0)
      as Hc.
    destruct (connect (robot_address_ d0) (robot_port_ d0) d0 w0)
      as [d1 w1 | what w1 | |]; try easy.
    destruct Hc as [_ Hlt]. apply IH. lia. }
  cbn [poll_position]. destruct (remote_ d) as [r |].
  - unfold bind at 1.
    pose proof (estimatePosition_frame r (x data) (y data) (th data) w)
      as Hnet.
    destruct (Nav2Remote.estimatePosition r (x data) (y data) (th data) w)
      as [[[rc [[px py] pth]] r1] w1 | what w1 | |]; try easy.
    destruct Hnet as [Hnet _].
    destruct (rc <? 0); [| easy].
    apply Hagain. rewrite Hnet. lia.
  - apply Hagain. lia.
Qed.

(** A tick of the timer always comes to an end: with a pose published, an
    exception from [connect], or undefined behaviour in the scan. *)
Lemma publishOdometry_ends (invert : bool) (robot_prefix : string) (d : t)
    (w : World) :
  publishOdometry invert robot_prefix d w <> OutOfFuel.
Proof.
  unfold publishOdometry. unfold bind at 1.
  pose proof (poll_position_ends (S (length (net w))) origin d w
                ltac:(lia)) as Hp.
  destruct (poll_position (S (length (net w))) origin d w)
    as [[data d1] w1 | what w1 | |]; easy.
Qed.

(** C5.  [setVelocity] turns the commanded velocity into polar form and
    calls [setRelativeVelocity] with the heading [atan2(vy, vx)] in degrees
    in the place of [vx], the speed [sqrt(vx^2 + vy^2)] in the place of
    [vy], and the angular velocity, in radians per second, as the turn
    rate, which [setRelativeVelocity] turns into degrees per second on the
    wire: every [write] the call makes, also after a reconnect, carries
    exactly this text, and when the client is connected and the command is
    written in full the call is that one [setRelativeVelocity].  ([atan2]
    and [pow] are those of the mathematics library, whatever they
    compute.) *)
Theorem setVelocity_sends_polar (atan2 pow : float -> float -> float)
    (twist : Twist) (d : t) (w : World) :
  let vn := (atan2 (linear_y twist) (linear_x twist) * (180 / M_PI))%float in
  let vs := (sqrt (pow (linear_x twist) 2 + pow (linear_y twist) 2))%float in
  let text := "v " +:+ printf_lf vn +:+ " " +:+ printf_lf vs +:+ " "
              +:+ printf_lf (angular_z twist * (180 / M_PI))%float +:+ nl in
  match setVelocity atan2 pow twist d w with
  | Ret _ w' | Throw _ w' =>
      exists evs, extends w w' evs /\ Forall (writes_only text) evs
  | Undefined => True
  | OutOfFuel => False
  end
  /\ (forall (r : Nav2Remote.t) (w' : World),
         remote_ d = Some r ->
         Nav2Remote.setRelativeVelocity vn vs (angular_z twist) w = Ret 0 w' ->
         setVelocity atan2 pow twist d w = Ret d w'
         /\ exists n : Z, extends w w' [EvWrite text n]).
Proof.
  intros vn vs text. split.
  - unfold setVelocity. apply send_velocity_outcome. lia.
  - intros r w' Hlive Hsend. split.
    + unfold setVelocity. cbn [send_velocity]. rewrite Hlive. unfold bind.
      fold vn vs. rewrite Hsend. reflexivity.
    + pose proof (setRelativeVelocity_text vn vs (angular_z twist) w) as H.
      rewrite Hsend in H. exact H.
Qed.

Lemma setVelocity_sends_polar_witness :
  exists w' : World,
    setVelocity (fun _ _ => 0%float) (fun a _ => (a * a)%float)
      (mkTwist 1 0 0.5) live idle = Ret live w'
    /\ exists n : Z,
        extends idle w' [EvWrite ("v 0.000000 1.000000 28.647890" +:+ nl) n].
Proof.
  eexists.
  apply (proj2 (setVelocity_sends_polar (fun _ _ => 0%float)
                  (fun a _ => (a * a)%float) (mkTwist 1 0 0.5) live idle)
           fresh).
  - reflexivity.
  - vm_compute. reflexivity.
Defined.

End Driver.


(** * Further properties of the code *)

(** ** The line reader: what a returned line holds, and the buffer *)

Section ReadLineMore.
Import CLib Sys Ref Cover.

Lemma spec_line_clean (input : string) :
  forall (cur l : list ascii) (rest : string),
    Forall (fun c => is_line_break c = false) cur ->
    spec_filtered_line_from cur input = Some (l, rest) ->
    Forall (fun c => is_line_break c = false) l.
Proof.
  induction input as [| c input IH]; intros cur l rest Hcur H; simpl in H.
  - discriminate.
  - destruct (Ascii.eqb c CR) eqn:Ecr; [now apply IH in H |].
    destruct (Ascii.eqb c LF) eqn:Elf.
    + destruct (begins_with_sentinel cur).
      * apply IH in H; [exact H | constructor].
      * now inversion H; subst.
    + apply IH in H; [exact H |]. apply Forall_app. split; [exact Hcur |].
      constructor; [| constructor]. unfold is_line_break.
      now rewrite Ecr, Elf.
Qed.

Lemma c_str_chars (P : ascii -> Prop) (l : list ascii) :
  Forall P l -> Forall P (list_ascii_of_string (c_str (l ++ [NUL]))).
Proof.
  induction 1 as [| c l Hc Hl IH]; simpl; [constructor |].
  destruct (Ascii.eqb c NUL); simpl; [constructor | now constructor].
Qed.

(** X1.  The line [readLine] returns holds neither a carriage return nor
    a line feed: not among the [rc] bytes it reports, and so not in the
    string [sscanf] is given. *)
Theorem readLine_line_has_no_line_break
    (r : Nav2Remote.t) (w : World) (rc : Z) (r' : Nav2Remote.t) (w' : World) :
  wf r ->
  Nav2Remote.readLine r w = Ret (rc, r') w' ->
  0 <= rc ->
  Forall (fun c => is_line_break c = false)
    (take (Z.to_nat rc) (Nav2Remote.line r'))
  /\ Forall (fun c => is_line_break c = false)
       (list_ascii_of_string (c_str (Nav2Remote.line r'))).
Proof.
  intros Hwf Hrun Hrc.
  pose proof (readLine_spec r w Hwf) as H. rewrite Hrun in H.
  destruct H as (_ & _ & _ & H). unfold spec_filtered_line in H.
  destruct (spec_filtered_line_from [] (rx w)) as [[l rest'] |] eqn:Espec.
  - destruct H as (-> & Htake & Hnul & _).
    pose proof (spec_line_clean _ [] _ _ ltac:(constructor) Espec) as Hclean.
    rewrite Nat2Z.id, Htake. split; [exact Hclean |].
    rewrite (c_str_terminated l _ Htake Hnul). now apply c_str_chars.
  - destruct H as [-> _]. lia.
Qed.

Lemma readLine_line_has_no_line_break_witness :
  exists (r' : Nav2Remote.t) (w' : World),
    Nav2Remote.readLine fresh
      (world (String CR (String "7" (String CR (String LF "x")))) [] [])
    = Ret (1, r') w'
    /\ Forall (fun c => is_line_break c = false)
         (take (Z.to_nat 1) (Nav2Remote.line r'))
    /\ Forall (fun c => is_line_break c = false)
         (list_ascii_of_string (c_str (Nav2Remote.line r'))).
Proof.
  eexists. eexists. split; [vm_compute; reflexivity |].
  eapply (readLine_line_has_no_line_break fresh
            (world (String CR (String "7" (String CR (String LF "x")))) [] [])
            1).
  - reflexivity.
  - vm_compute. reflexivity.
  - lia.
Defined.




End ReadLineMore.

(** ** Queries and the stream *)

Section QueriesMore.
Import CLib Sys Ref Cover.

(** [readLine] on a sound buffer, in terms of the input alone. *)
Lemma readLine_by_spec (r : Nav2Remote.t) (w : World) (input : string) :
  wf r -> memory_lasts w -> short_input w -> rx w = input ->
  exists (r' : Nav2Remote.t) (heap' : list bool),
    wf r'
    /\ Nav2Remote.readLine r w
       = Ret (fst (fst (line_view input)), r')
             (set_rx (snd (line_view input)) (set_heap heap' w))
    /\ (0 <= fst (fst (line_view input)) ->
        c_str (Nav2Remote.line r') = snd (fst (line_view input))).
Proof.
  intros Hwf Hmem Hshort <-.
  destruct (readLine_returns r w Hwf Hmem Hshort)
    as (rc & r' & heap' & rest & -> & Hwf' & _ & H).
  exists r', heap'. split; [exact Hwf' |]. unfold line_view.
  destruct (spec_filtered_line (rx w)) as [[l rest'] |]; simpl.
  - destruct H as (-> & Htake & Hnul & ->). split; [reflexivity |].
    intros _. now apply c_str_terminated.
  - destruct H as [-> ->]. split; [reflexivity | intros H; lia].
Qed.

Lemma line_view_skips_noise (noise rest : string) :
  noise_line noise = true ->
  line_view (noise +:+ String LF rest) = line_view rest.
Proof.
  intros Hnoise. apply andb_prop in Hnoise as [Hlf Hbar].
  unfold line_view, spec_filtered_line. now rewrite spec_skips_noise.
Qed.

Lemma length_append_s (a b : string) :
  String.length (a +:+ b) = (String.length a + String.length b)%nat.
Proof.
  induction a as [| c a IH]; [reflexivity |].
  change (S (String.length (a +:+ b))
          = S (String.length a + String.length b)).
  now rewrite IH.
Qed.

(** X3.  Lines of asynchronous chatter before an answer do not change
    what a query gives: when its request is written in full, every query
    gives back the same values (for [estimatePosition], the return code
    and the three references), leaves the same input unread and has
    written the same request, whether or not a line that begins with [|]
    or [+] stands in front of the input.  (Both calls return: no
    allocation fails and the input is shorter than an [int] can
    count.) *)
Theorem queries_skip_noise (q : Query) (r : Nav2Remote.t) (w : World)
    (noise : string) :
  wf r ->
  memory_lasts w ->
  short_input (set_rx (noise +:+ String LF (rx w)) w) ->
  write_completes (Z.of_nat (String.length (request q))) w ->
  noise_line noise = true ->
  query_view (run_query q r (set_rx (noise +:+ String LF (rx w)) w))
  = query_view (run_query q r w).
Proof.
  intros Hwf Hmem Hlong Hwrite Hnoise.
  pose proof (line_view_skips_noise noise (rx w) Hnoise) as Hview.
  assert (Hshort : short_input w).
  { unfold short_input in *. simpl in Hlong.
    rewrite length_append_s in Hlong. simpl in Hlong. lia. }
  destruct q; unfold run_query, Nav2Remote.estimatePosition,
    Nav2Remote.getMaxSpeed, Nav2Remote.getMaxAccel,
    Nav2Remote.getMaxCorneringError, Nav2Remote.query_double,
    Nav2Remote.getQueueSize, bind, sys_write, ret, undefined; simpl;
    (destruct Hwrite as [-> | [later ->]]; simpl);
    repeat match goal with
      | |- context [Nav2Remote.readLine r ?w1] =>
          let input := eval simpl in (rx w1) in
          let r1 := fresh "r1" in
          let heap1 := fresh "heap1" in
          let Hs := fresh "Hs" in
          destruct (readLine_by_spec r w1 input Hwf Hmem
                      ltac:(first [exact Hlong | exact Hshort]) eq_refl)
            as (r1 & heap1 & _ & -> & Hs)
      end;
    rewrite Hview in *;
    destruct (line_view (rx w)) as [[rc s] rest]; simpl in *;
    (destruct (Z.ltb_spec rc 0); simpl; [reflexivity |]);
    repeat match goal with
      | H : 0 <= rc -> c_str _ = s |- _ => rewrite (H ltac:(lia)); clear H
      end;
    repeat match goal with
      | |- context [negb (from_option fits_int true ?o)] =>
          destruct (from_option fits_int true o); simpl
      | |- context [match sscanf_lf ?s with Some _ => _ | None => _ end] =>
          destruct (sscanf_lf s); simpl
      | |- context [match f4 ?s with Some _ => _ | None => _ end] =>
          destruct (f4 s); simpl
      | |- context [if fits_int ?z then _ else _] =>
          destruct (fits_int z); simpl
      end; reflexivity.
Qed.

Lemma queries_skip_noise_witness :
  query_view (run_query (EstimatePosition 0 0 0) fresh
                (set_rx ("+chatter" +:+ String LF
                           (rx (world (lines ["1 2 90 7"]) [] [])))
                   (world (lines ["1 2 90 7"]) [] [])))
  = query_view (run_query (EstimatePosition 0 0 0) fresh
                  (world (lines ["1 2 90 7"]) [] [])).
Proof.
  apply (queries_skip_noise (EstimatePosition 0 0 0) fresh
           (world (lines ["1 2 90 7"]) [] []) "+chatter");
    [ reflexivity | constructor | unfold short_input, int_max; simpl; lia
    | left; reflexivity | reflexivity ].
Defined.

(** X4.  A query takes one answer line off the stream and no more: when
    the input holds a complete unfiltered line, a query that returns has
    either written its request in full and left unread exactly what
    follows that line, or written it short, returned the error value and
    read nothing, and its buffer is sound for the next call; a query that
    throws has thrown the [std::bad_alloc] of a failed allocation; and its
    behaviour is undefined only when that line does not hold the number
    it is to give back, or the input is too long for the [int] counter of
    the buffer size. *)
Theorem query_reads_one_line (q : Query) (r : Nav2Remote.t) (w : World)
    (l : list ascii) (rest : string) :
  wf r ->
  spec_filtered_line (rx w) = Some (l, rest) ->
  match run_query q r w with
  | Ret (a, r') w' =>
      wf r'
      /\ (rx w' = rest \/ (is_error a = true /\ rx w' = rx w))
  | Throw what _ => what = bad_alloc /\ ~ memory_lasts w
  | Undefined =>
      answers q (c_str (l ++ [NUL])) = false \/ ~ short_input w
  | OutOfFuel => False
  end.
Proof.
  intros Hwf Hspec. unfold answers.
  open_query q w;
    try (split; [exact Hwf | right; split; [reflexivity | exact Hrx]]);
    pose proof (readLine_spec r w1 Hwf) as Hr;
    rewrite Hrx, Hspec in Hr;
    (destruct (Nav2Remote.readLine r w1) as [[rc r1] w2 | what w2 | |];
     cbv beta iota zeta; try contradiction;
     [ destruct Hr as (Hwf1 & _ & _ & -> & Htake & Hnul & Hrest);
       (destruct (Z.ltb_spec (Z.of_nat (length l)) 0); [lia |]);
       rewrite (c_str_terminated l _ Htake Hnul);
       cbv beta iota zeta; close_query; cbn [from_option];
       try (left; reflexivity);
       (split; [exact Hwf1 | left; exact Hrest])
     | destruct Hr as (-> & Hm & _); split; [reflexivity |];
       unfold memory_lasts in *; now rewrite <- Hheap
     | right; unfold short_input in *; now rewrite <- Hrx ]).
Qed.

Lemma query_reads_one_line_witness :
  match run_query GetMaxSpeed fresh (world (lines ["0.5"; "0 0 0 7"]) [] []) with
  | Ret (a, r') w' =>
      wf r'
      /\ (rx w' = lines ["0 0 0 7"]
          \/ (is_error a = true
              /\ rx w' = rx (world (lines ["0.5"; "0 0 0 7"]) [] [])))
  | Throw what _ =>
      what = bad_alloc
      /\ ~ memory_lasts (world (lines ["0.5"; "0 0 0 7"]) [] [])
  | Undefined =>
      answers GetMaxSpeed (c_str (list_ascii_of_string "0.5" ++ [NUL]))
      = false
      \/ ~ short_input (world (lines ["0.5"; "0 0 0 7"]) [] [])
  | OutOfFuel => False
  end.
Proof.
  apply (query_reads_one_line GetMaxSpeed fresh
           (world (lines ["0.5"; "0 0 0 7"]) [] [])
           (list_ascii_of_string "0.5") (lines ["0 0 0 7"])); reflexivity.
Defined.

(** On a line that begins no number the scan for one fails. *)
Lemma no_number_fails (s : string) :
  no_number s = true -> scan_lf s = None.
Proof.
  unfold no_number, scan_lf.
  destruct (scan_sign (skip_space s)) as [neg s1]. simpl.
  destruct s1 as [| c s1]; [reflexivity |].
  intros H. apply negb_true_iff in H.
  apply orb_false_elim in H as [H Hn].
  apply orb_false_elim in H as [H Hi].
  apply orb_false_elim in H as [Hd Hp].
  rewrite Hn, Hi.
  assert (Hdec : scan_decimal neg (String c s1) = None).
  { unfold scan_decimal. simpl. rewrite Hd.
    destruct c as [[] [] [] [] [] [] [] []]; try discriminate; reflexivity. }
  destruct c as [[] [] [] [] [] [] [] []]; try discriminate; exact Hdec.
Qed.

Lemma sscanf_nothing (line : string) :
  scan_lf line = None ->
  sscanf_lf_lf_lf_d line = mkScan4 None None None None.
Proof. unfold sscanf_lf_lf_lf_d. now intros ->. Qed.

Lemma estimatePosition_blank (r : Nav2Remote.t) (w : World)
    (x0 y0 o0 : float) (l : list ascii) (rest : string) :
  wf r ->
  memory_lasts w ->
  short_input w ->
  write_completes 2 w ->
  spec_filtered_line (rx w) = Some (l, rest) ->
  no_number (c_str (l ++ [NUL])) = true ->
  exists (r' : Nav2Remote.t) (w' : World),
    Nav2Remote.estimatePosition r x0 y0 o0 w
    = Ret (0, (x0, y0, (o0 * (M_PI / 180))%float), r') w'
    /\ wf r' /\ rx w' = rest
    /\ trace w' = trace w ++ [EvWrite ("q" +:+ nl) 2].
Proof.
  intros Hwf Hmem Hshort Hwrite Hspec Hblank.
  unfold Nav2Remote.estimatePosition. unfold bind at 1.
  destruct (sys_write_spec ("q" +:+ nl) w)
    as (n & w1 & -> & Hrx & _ & Hheap & Htr & Hn).
  assert (n = 2) as ->.
  { destruct Hwrite as [Hwr | [later Hwr]]; rewrite Hwr in Hn; exact Hn. }
  cbn [Z.eqb Pos.eqb negb]. unfold bind at 1.
  destruct (readLine_returns r w1 Hwf)
    as (rc & r' & heap' & rest' & -> & Hwf' & _ & H);
    [ unfold memory_lasts; now rewrite Hheap
    | unfold short_input; now rewrite Hrx |].
  rewrite Hrx, Hspec in H. destruct H as (-> & Htake & Hnul & ->).
  destruct (Z.ltb_spec (Z.of_nat (length l)) 0); [lia |].
  rewrite (c_str_terminated l _ Htake Hnul),
    (sscanf_nothing _ (no_number_fails _ Hblank)).
  simpl. exists r'. eexists. split; [reflexivity |]. repeat split.
  - exact Hwf'.
  - exact Htr.
Qed.

(** X5.  [estimatePosition] takes any line for an answer: when the line
    read begins no number (it is blank, or its first word starts with a
    character that is no digit, no point and not the [i] or [n] of [inf]
    or [nan]), it still returns 0, leaves [x] and [y] as the caller had
    them, and multiplies the caller's [orientation] by pi/180 all the
    same. *)
Theorem estimatePosition_takes_any_line (r : Nav2Remote.t) (w : World)
    (x0 y0 o0 : float) (l : list ascii) (rest : string) :
  wf r ->
  memory_lasts w ->
  short_input w ->
  write_completes 2 w ->
  spec_filtered_line (rx w) = Some (l, rest) ->
  no_number (c_str (l ++ [NUL])) = true ->
  exists (r' : Nav2Remote.t) (w' : World),
    Nav2Remote.estimatePosition r x0 y0 o0 w
    = Ret (0, (x0, y0, (o0 * (M_PI / 180))%float), r') w'
    /\ wf r' /\ rx w' = rest
    /\ trace w' = trace w ++ [EvWrite ("q" +:+ nl) 2].
Proof. exact (estimatePosition_blank r w x0 y0 o0 l rest). Qed.

Lemma estimatePosition_takes_any_line_witness :
  exists (r' : Nav2Remote.t) (w' : World),
    Nav2Remote.estimatePosition fresh 1 2 90
      (world (lines ["ok"; "0 0 0 0"]) [] [])
    = Ret (0, (1, 2, 90 * (M_PI / 180))%float, r') w'
    /\ wf r' /\ rx w' = lines ["0 0 0 0"]
    /\ trace w' = trace (world (lines ["ok"; "0 0 0 0"]) [] [])
                   ++ [EvWrite ("q" +:+ nl) 2].
Proof.
  apply (estimatePosition_takes_any_line fresh
           (world (lines ["ok"; "0 0 0 0"]) [] []) 1 2 90
           (list_ascii_of_string "ok") (lines ["0 0 0 0"]));
    [ reflexivity | constructor | unfold short_input, int_max; simpl; lia
    | left; reflexivity | reflexivity | reflexivity ].
Defined.

End QueriesMore.

(** ** Making a connection *)

Section ConnectMore.
Import CLib Msgs Sys Ref Cover Nav2Driver.

Lemma connect_first_spec (ai : list Candidate) (w : World) :
  Nav2Remote.connect_first ai w
  = match first_accepting ai with
    | Some (peer_rx, peer_wr) => Ret fresh (set_peer peer_rx peer_wr w)
    | None => Throw "Can't connect to robot" w
    end.
Proof.
  induction ai as [| [| | peer_rx peer_wr] ai IH]; simpl; try exact IH;
    reflexivity.
Qed.

Lemma valid_port_spec (port : Z) :
  (port <? 1) || (65535 <? port) = negb (valid_port port).
Proof.
  unfold valid_port.
  destruct (Z.ltb_spec port 1), (Z.ltb_spec 65535 port),
    (Z.leb_spec 1 port), (Z.leb_spec port 65535); simpl; try reflexivity; lia.
Qed.

Lemma new_spec (host : string) (port : Z)
    (w : World) (ai : list Candidate) (later : list (option (list Candidate))) :
  valid_port port = true ->
  net w = Some ai :: later ->
  Nav2Remote.new host port w
  = match first_accepting ai with
    | Some (peer_rx, peer_wr) =>
        Ret fresh (set_peer peer_rx peer_wr (set_net later w))
    | None => Throw "Can't connect to robot" (set_net later w)
    end.
Proof.
  intros Hport Hnet. unfold Nav2Remote.new.
  rewrite valid_port_spec, Hport. simpl. rewrite Hnet.
  apply connect_first_spec.
Qed.

(** X6.  The constructor of the client connects to the first address of
    the resolver's answer that accepts, skipping those on which [socket]
    or [connect] fails, and uses up that one answer; when no address
    accepts it throws. *)
Theorem new_connects_to_first_accepting (host : string) (port : Z)
    (w : World) (ai : list Candidate) (later : list (option (list Candidate))) :
  valid_port port = true ->
  net w = Some ai :: later ->
  Nav2Remote.new host port w
  = match first_accepting ai with
    | Some (peer_rx, peer_wr) =>
        Ret fresh (set_peer peer_rx peer_wr (set_net later w))
    | None => Throw "Can't connect to robot" (set_net later w)
    end.
Proof.
  exact (new_spec host port w ai later).
Qed.

Lemma new_connects_to_first_accepting_witness :
  Nav2Remote.new "robot" 5010
    (world EmptyString []
       [Some [Refused; NoSocket; Accepts "a" [1]; Accepts "b" []]; None])
  = Ret fresh
      (set_peer "a" [1]
         (set_net [None]
            (world EmptyString []
               [Some [Refused; NoSocket; Accepts "a" [1]; Accepts "b" []];
                None]))).
Proof.
  apply (new_connects_to_first_accepting "robot" 5010
           (world EmptyString []
              [Some [Refused; NoSocket; Accepts "a" [1]; Accepts "b" []];
               None])
           [Refused; NoSocket; Accepts "a" [1]; Accepts "b" []] [None]);
    reflexivity.
Defined.

(** A constructor call that cannot succeed: it throws, logs nothing, and
    uses up an answer of the resolver only when the port is valid. *)
Lemma new_throws (host : string) (port : Z) (w : World) :
  valid_port port = false
  \/ match net w with
     | [] => True
     | a :: _ => answer_fails a = true
     end ->
  exists (what : string) (w1 : World),
    Nav2Remote.new host port w = Throw what w1
    /\ trace w1 = trace w
    /\ net w1 = if valid_port port then tail (net w) else net w.
Proof.
  intros Hfail. unfold Nav2Remote.new. rewrite valid_port_spec.
  destruct (valid_port port) eqn:Hport; simpl.
  - destruct Hfail as [Hfail | Hfail]; [discriminate |].
    destruct (net w) as [| [ai |] later] eqn:Hnet.
    + do 2 eexists. split; [reflexivity |]. now rewrite Hnet.
    + rewrite connect_first_spec. simpl in Hfail.
      destruct (first_accepting ai); [discriminate |].
      do 2 eexists. repeat split.
    + do 2 eexists. repeat split.
  - do 2 eexists. repeat split.
Qed.

Lemma connect_retry_gives_up (address : string) (port : Z) (d : t)
    (attempts : nat) :
  forall w : World,
    valid_port port = false
    \/ Forall (fun a => answer_fails a = true) (take attempts (net w)) ->
    exists w' : World,
      connect_retry attempts address port d w = Throw gave_up w'
      /\ trace w' = trace w ++ replicate attempts (EvSleep 0.2)
      /\ net w' = if valid_port port then drop attempts (net w) else net w.
Proof.
  induction attempts as [| attempts IH]; intros w Hfail.
  - exists w. simpl. rewrite app_nil_r, drop_0.
    split; [reflexivity |]. split; [reflexivity | now destruct (valid_port port)].
  - destruct (new_throws address port w) as (what & w1 & Hnew & Htr & Hnet).
    { destruct Hfail as [Hfail | Hfail]; [now left | right].
      destruct (net w) as [| a later]; [exact I |].
      simpl in Hfail. now inversion Hfail. }
    destruct (IH (log (EvSleep 0.2) w1)) as (w' & Hrun & Htr' & Hnet').
    { destruct Hfail as [Hfail | Hfail]; [now left | right].
      simpl. rewrite Hnet.
      destruct (valid_port port).
      - destruct (net w) as [| a later]; simpl in *.
        + rewrite take_nil. constructor.
        + now inversion Hfail.
      - replace (take attempts (net w))
          with (take attempts (take (S attempts) (net w)))
          by (rewrite take_take; f_equal; lia).
        now apply Forall_take. }
    exists w'. cbn [connect_retry]. unfold try_catch, bind at 1.
    rewrite Hnew. unfold bind, emit. rewrite Hrun.
    split; [reflexivity |]. split.
    + rewrite Htr'. simpl. rewrite Htr, <- app_assoc. reflexivity.
    + rewrite Hnet'. simpl. rewrite Hnet.
      destruct (valid_port port); [| reflexivity].
      destruct (net w); simpl; [now rewrite drop_nil | reflexivity].
Qed.

Lemma connect_retry_succeeds (address : string) (port : Z) (d : t)
    (ai : list Candidate) (later : list (option (list Candidate)))
    (peer_rx : string) (peer_wr : list Z) :
  valid_port port = true ->
  first_accepting ai = Some (peer_rx, peer_wr) ->
  forall (fs : list (option (list Candidate))) (attempts : nat) (w : World),
    net w = fs ++ Some ai :: later ->
    Forall (fun a => answer_fails a = true) fs ->
    (length fs < attempts)%nat ->
    exists w' : World,
      connect_retry attempts address port d w
      = Ret (set_remote (Some fresh) d) w'
      /\ trace w' = trace w ++ replicate (length fs) (EvSleep 0.2)
      /\ net w' = later /\ rx w' = peer_rx /\ wr w' = peer_wr.
Proof.
  intros Hport Hai fs.
  induction fs as [| a fs IH]; intros attempts w Hnet Hfs Hlen;
    (destruct attempts as [| attempts]; [simpl in Hlen; lia |]);
    cbn [connect_retry]; unfold try_catch, bind at 1.
  - rewrite (new_spec address port w ai later Hport Hnet), Hai.
    eexists. split; [reflexivity |]. simpl. now rewrite app_nil_r.
  - destruct (new_throws address port w) as (what & w1 & Hnew & Htr & Hnet1).
    { right. rewrite Hnet. simpl. now inversion Hfs. }
    rewrite Hport, Hnet in Hnet1. simpl in Hnet1.
    destruct (IH attempts (log (EvSleep 0.2) w1))
      as (w' & Hrun & Htr' & Hrest); [exact Hnet1 | now inversion Hfs
                                     | simpl in Hlen; lia |].
    exists w'. rewrite Hnew. unfold bind, emit. rewrite Hrun.
    split; [reflexivity |]. split; [| exact Hrest].
    rewrite Htr'. simpl. now rewrite Htr, <- app_assoc.
Qed.

(** [connect] is its loop, run after the old connection, if any, was
    closed and the integrator restarted at the pose reached. *)
Lemma connect_unfold (address : string) (port : Z) (d : t) (w : World) :
  exists (d0 : t) (w0 : World),
    connect address port d w = connect_retry 5 address port d0 w0
    /\ trace w0 = trace w ++ closing d /\ net w0 = net w
    /\ same_setup d d0 /\ (remote_ d = None -> d0 = d).
Proof.
  unfold connect, closing. destruct (remote_ d) as [r |].
  - unfold bind at 1. unfold bind at 1. unfold Nav2Remote.delete.
    unfold bind at 1. unfold BaseOdometry_at, bind at 1, now, ret.
    do 2 eexists. split; [reflexivity |]. repeat split. discriminate.
  - unfold bind at 1, ret. exists d, w. rewrite app_nil_r. repeat split.
Qed.

(** X7.  [connect] makes up to five attempts, sleeping 0.2 s after each
    failed one: when fewer than five answers of the resolver fail before
    one with an accepting address, it returns connected to that address,
    having closed the old connection first and slept once per failure. *)
Theorem connect_retries_until_accepted (address : string) (port : Z) (d : t)
    (w : World) (fs : list (option (list Candidate))) (ai : list Candidate)
    (later : list (option (list Candidate)))
    (peer_rx : string) (peer_wr : list Z) :
  valid_port port = true ->
  net w = fs ++ Some ai :: later ->
  Forall (fun a => answer_fails a = true) fs ->
  (length fs < 5)%nat ->
  first_accepting ai = Some (peer_rx, peer_wr) ->
  exists (d' : t) (w' : World),
    connect address port d w = Ret d' w'
    /\ remote_ d' = Some fresh
    /\ trace w'
       = trace w ++ closing d ++ replicate (length fs) (EvSleep 0.2)
    /\ net w' = later /\ rx w' = peer_rx /\ wr w' = peer_wr.
Proof.
  intros Hport Hnet Hfs Hlen Hai.
  destruct (connect_unfold address port d w)
    as (d0 & w0 & -> & Htr0 & Hnet0 & _).
  destruct (connect_retry_succeeds address port d0 ai later peer_rx peer_wr
              Hport Hai fs 5 w0) as (w' & -> & Htr & Hrest);
    [congruence | exact Hfs | exact Hlen |].
  do 2 eexists. split; [reflexivity |]. split; [reflexivity |].
  split; [| exact Hrest]. now rewrite Htr, Htr0, <- app_assoc.
Qed.

Lemma connect_retries_until_accepted_witness :
  exists (d' : t) (w' : World),
    connect "robot" 5010 live
      (world EmptyString [] [None; Some [Refused]; Some [Accepts "a" []]; None])
    = Ret d' w'
    /\ remote_ d' = Some fresh
    /\ trace w' = [EvClose; EvSleep 0.2; EvSleep 0.2]
    /\ net w' = [None] /\ rx w' = "a" /\ wr w' = [].
Proof.
  apply (connect_retries_until_accepted "robot" 5010 live
           (world EmptyString [] [None; Some [Refused]; Some [Accepts "a" []]; None])
           [None; Some [Refused]] [Accepts "a" []] [None] "a" []);
    [reflexivity | reflexivity | repeat constructor | simpl; lia
    | reflexivity].
Defined.

(** X8.  When the port is out of range, or each of the next five answers
    of the resolver fails or has no accepting address, [connect] throws
    "Failed to connect to Nav2 base" after exactly five sleeps of 0.2 s
    (the exceptions of the five constructor calls are caught); an invalid
    port does not consult the resolver at all. *)
Theorem connect_gives_up_after_five (address : string) (port : Z) (d : t)
    (w : World) :
  valid_port port = false
  \/ Forall (fun a => answer_fails a = true) (take 5 (net w)) ->
  exists w' : World,
    connect address port d w = Throw gave_up w'
    /\ trace w' = trace w ++ closing d ++ replicate 5 (EvSleep 0.2)
    /\ net w' = if valid_port port then drop 5 (net w) else net w.
Proof.
  intros Hfail.
  destruct (connect_unfold address port d w)
    as (d0 & w0 & -> & Htr0 & Hnet0 & _).
  destruct (connect_retry_gives_up address port d0 5 w0)
    as (w' & -> & Htr & Hnet); [now rewrite Hnet0 |].
  exists w'. split; [reflexivity |]. split.
  - now rewrite Htr, Htr0, <- app_assoc.
  - now rewrite Hnet, Hnet0.
Qed.

Lemma connect_gives_up_after_five_witness :
  exists w' : World,
    connect "robot" 5010 live
      (world EmptyString []
         [None; Some [Refused]; Some []; None; Some [NoSocket];
          Some [Accepts "a" []]])
    = Throw gave_up w'
    /\ trace w' = [EvClose] ++ replicate 5 (EvSleep 0.2)
    /\ net w' = [Some [Accepts "a" []]].
Proof.
  apply (connect_gives_up_after_five "robot" 5010 live
           (world EmptyString []
              [None; Some [Refused]; Some []; None; Some [NoSocket];
               Some [Accepts "a" []]])).
  right. repeat constructor.
Defined.

End ConnectMore.

(** ** The driver's calls *)

Section DriverMore.
Import CLib Msgs Sys Ref Cover Nav2Driver.

Lemma same_setup_trans (d d1 d2 : t) :
  same_setup d d1 -> same_setup d1 d2 -> same_setup d d2.
Proof. unfold same_setup. intuition congruence. Qed.

(** Making a connection asks nothing of the allocator of the line
    buffer. *)
Lemma new_keeps_heap (address : string) (port : Z) (w : World) :
  match Nav2Remote.new address port w with
  | Ret _ w' | Throw _ w' => heap w' = heap w
  | Undefined | OutOfFuel => True
  end.
Proof.
  unfold Nav2Remote.new.
  destruct ((port <? 1) || (65535 <? port)); [reflexivity |].
  destruct (net w) as [| [ai |] later]; try reflexivity.
  rewrite connect_first_spec.
  now destruct (first_accepting ai) as [[peer_rx peer_wr] |].
Qed.

Lemma connect_retry_keeps_heap (attempts : nat) (address : string)
    (port : Z) (d : t) :
  forall w : World,
    match connect_retry attempts address port d w with
    | Ret _ w' | Throw _ w' => heap w' = heap w
    | Undefined | OutOfFuel => True
    end.
Proof.
  induction attempts as [| attempts IH]; intros w; simpl; [reflexivity |].
  unfold try_catch, bind at 1.
  pose proof (new_keeps_heap address port w) as Hnew.
  destruct (Nav2Remote.new address port w) as [r w1 | what w1 | |];
    try exact I; [exact Hnew |].
  unfold bind, emit. specialize (IH (log (EvSleep 0.2) w1)).
  destruct (connect_retry attempts address port d (log (EvSleep 0.2) w1));
    try exact I; simpl in IH; congruence.
Qed.

Lemma connect_keeps_heap (address : string) (port : Z) (d : t) (w : World) :
  match connect address port d w with
  | Ret _ w' | Throw _ w' => heap w' = heap w
  | Undefined | OutOfFuel => True
  end.
Proof.
  unfold connect. destruct (remote_ d) as [r |].
  - unfold bind at 1. unfold bind at 1. unfold Nav2Remote.delete.
    unfold bind at 1. unfold BaseOdometry_at, bind at 1, now, ret.
    match goal with
    | |- context [connect_retry 5 address port ?d0 ?w0] =>
        pose proof (connect_retry_keeps_heap 5 address port d0 w0) as H;
        destruct (connect_retry 5 address port d0 w0); try exact I;
        exact H
    end.
  - unfold bind at 1, ret. apply connect_retry_keeps_heap.
Qed.

(** The loop of [connect] logs sleeps only; it returns the driver with a
    new client in it, and throws nothing but its own exception. *)
Lemma connect_retry_trace (attempts : nat) (address : string) (port : Z)
    (d : t) :
  forall w : World,
    match connect_retry attempts address port d w with
    | Ret d' w' =>
        (exists r, d' = set_remote (Some r) d)
        /\ exists k, trace w' = trace w ++ replicate k (EvSleep 0.2)
    | Throw what w' =>
        what = gave_up
        /\ exists k, trace w' = trace w ++ replicate k (EvSleep 0.2)
    | Undefined | OutOfFuel => False
    end.
Proof.
  induction attempts as [| attempts IH]; intros w; simpl.
  - unfold throw. split; [reflexivity |]. exists 0%nat. simpl.
    now rewrite app_nil_r.
  - unfold try_catch, bind at 1.
    pose proof (new_outcome address port w) as Hnew.
    destruct (Nav2Remote.new address port w) as [r w1 | what w1 | |];
      try contradiction; destruct Hnew as [Htr _].
    + unfold ret. split; [now exists r |]. exists 0%nat. simpl.
      now rewrite app_nil_r.
    + unfold bind, emit.
      specialize (IH (log (EvSleep 0.2) w1)).
      destruct (connect_retry attempts address port d (log (EvSleep 0.2) w1))
        as [d' w' | what' w' | |]; try contradiction;
        destruct IH as (Hd & k & Hk); (split; [exact Hd |]);
        exists (S k); rewrite Hk; simpl; now rewrite Htr, <- app_assoc.
Qed.

Lemma Forall_reconnecting_sleeps (k : nat) :
  Forall reconnecting (replicate k (EvSleep 0.2))
  /\ Forall keeps_open (replicate k (EvSleep 0.2)).
Proof. split; apply Forall_replicate; exact I. Qed.

(** [connect]: what it logs is the closing of the old connection and
    sleeps; a call that closes nothing leaves the integrator alone. *)
Lemma connect_ends (address : string) (port : Z) (d : t) (w : World) :
  match connect address port d w with
  | Ret d' w' =>
      remote_ d' <> None /\ same_setup d d'
      /\ exists evs,
           trace w' = trace w ++ evs /\ Forall reconnecting evs
           /\ (Forall keeps_open evs -> base_odom_ d' = base_odom_ d)
  | Throw what w' =>
      what = gave_up
      /\ exists evs, trace w' = trace w ++ evs /\ Forall reconnecting evs
  | Undefined | OutOfFuel => False
  end.
Proof.
  destruct (connect_unfold address port d w)
    as (d0 & w0 & -> & Htr0 & _ & Hsetup & Hsame).
  pose proof (connect_retry_trace 5 address port d0 w0) as H.
  destruct (connect_retry 5 address port d0 w0) as [d' w' | what w' | |];
    try contradiction.
  - destruct H as ((r & ->) & k & Hk). split; [discriminate |].
    split; [exact Hsetup |].
    exists (closing d ++ replicate k (EvSleep 0.2)).
    split; [now rewrite Hk, Htr0, <- app_assoc |]. unfold closing in *.
    destruct (remote_ d) as [r0 |]; simpl.
    + split; [constructor; [exact I | apply Forall_reconnecting_sleeps] |].
      intros Hopen. now inversion Hopen.
    + split; [apply Forall_reconnecting_sleeps |].
      intros _. now rewrite (Hsame eq_refl).
  - destruct H as (-> & k & Hk). split; [reflexivity |].
    exists (closing d ++ replicate k (EvSleep 0.2)).
    split; [now rewrite Hk, Htr0, <- app_assoc |]. unfold closing.
    destruct (remote_ d); simpl;
      [constructor; [exact I |] |]; apply Forall_reconnecting_sleeps.
Qed.

Lemma updateWithAbsolute_ends (s : Pose2D) (o : BaseOdometry) (w : World) :
  exists (o' : BaseOdometry) (w' : World),
    updateWithAbsolute s o w = Ret o' w'
    /\ trace w' = trace w /\ offset_ o' = offset_ o.
Proof.
  unfold updateWithAbsolute, updateWithRelative, bind, now, ret. simpl.
  do 2 eexists. repeat split.
Qed.

(** The loop of [publishOdometry]: it publishes nothing, returns holding a
    connection, and leaves the integrator alone unless it closed one; it
    throws the exception of [connect], or that of [readLine] when an
    allocation fails. *)
Lemma poll_position_post (fuel : nat) :
  forall (data : Pose2D) (d : t) (w : World),
    match poll_position fuel data d w with
    | Ret (_, d') w' =>
        connected_as d d'
        /\ exists evs,
             trace w' = trace w ++ evs /\ Forall unpublished evs
             /\ (Forall keeps_open evs -> base_odom_ d' = base_odom_ d)
    | Throw what w' =>
        (what = gave_up \/ (what = bad_alloc /\ ~ memory_lasts w))
        /\ exists evs, trace w' = trace w ++ evs /\ Forall unpublished evs
    | Undefined | OutOfFuel => True
    end.
Proof.
  assert (Hre : forall evs, Forall reconnecting evs -> Forall unpublished evs).
  { intros evs H. eapply Forall_impl; [exact H |]. now intros []. }
  induction fuel as [| fuel IH]; intros data d w; [exact I |].
  assert (Hagain : forall data' d0 w0,
    match (d1 <- connect (robot_address_ d0) (robot_port_ d0) d0 ;;
           poll_position fuel data' d1) w0 with
    | Ret (_, d') w' =>
        connected_as d0 d'
        /\ exists evs,
             trace w' = trace w0 ++ evs /\ Forall unpublished evs
             /\ (Forall keeps_open evs -> base_odom_ d' = base_odom_ d0)
    | Throw what w' =>
        (what = gave_up \/ (what = bad_alloc /\ ~ memory_lasts w0))
        /\ exists evs, trace w' = trace w0 ++ evs /\ Forall unpublished evs
    | Undefined | OutOfFuel => True
    end).
  { intros data' d0 w0. unfold bind.
    pose proof (connect_ends (robot_address_ d0) (robot_port_ d0) d0 w0)
      as Hc.
    pose proof (connect_keeps_heap (robot_address_ d0) (robot_port_ d0) d0 w0)
      as Hheap.
    destruct (connect (robot_address_ d0) (robot_port_ d0) d0 w0)
      as [d1 w1 | what w1 | |]; try contradiction.
    - destruct Hc as (_ & Hs1 & evs1 & Htr1 & Hq1 & Hodom1).
      specialize (IH data' d1 w1).
      destruct (poll_position fuel data' d1 w1)
        as [[data2 d2] w2 | what w2 | |]; try exact I.
      + destruct IH as ((Hlive & Hs2) & evs2 & Htr2 & Hq2 & Hodom2).
        split; [split; [exact Hlive
                       | exact (same_setup_trans _ _ _ Hs1 Hs2)] |].
        exists (evs1 ++ evs2).
        split; [now rewrite Htr2, Htr1, app_assoc |].
        split; [apply Forall_app; auto |].
        intros Hopen. apply Forall_app in Hopen as [Ho1 Ho2].
        now rewrite (Hodom2 Ho2), (Hodom1 Ho1).
      + destruct IH as (Hwhat & evs2 & Htr2 & Hq2). split.
        * destruct Hwhat as [-> | [-> Hm]]; [now left | right].
          split; [reflexivity |]. unfold memory_lasts in *.
          now rewrite <- Hheap.
        * exists (evs1 ++ evs2).
          split; [now rewrite Htr2, Htr1, app_assoc |].
          apply Forall_app; auto.
    - destruct Hc as (-> & evs1 & Htr1 & Hq1). split; [now left |].
      exists evs1. auto. }
  cbn [poll_position]. destruct (remote_ d) as [r |] eqn:Hr.
  - unfold bind at 1.
    pose proof (estimatePosition_frame r (x data) (y data) (th data) w)
      as Hq.
    destruct (Nav2Remote.estimatePosition r (x data) (y data) (th data) w)
      as [[[rc [[px py] pth]] r1] w1 | what w1 | |]; try easy.
    + destruct Hq as (_ & _ & Hmem & n & Htr).
      destruct (rc <? 0).
      * specialize (Hagain (mkPose2D px py pth) (set_remote (Some r1) d) w1).
        destruct ((d1 <- connect (robot_address_ (set_remote (Some r1) d))
                           (robot_port_ (set_remote (Some r1) d))
                           (set_remote (Some r1) d) ;;
                   poll_position fuel (mkPose2D px py pth) d1) w1)
          as [[data2 d2] w2 | what w2 | |]; try exact I.
        -- destruct Hagain as ((Hlive & Hs2) & evs2 & Htr2 & Hq2 & Hodom2).
           split; [split; [exact Hlive | exact Hs2] |].
           exists ([EvWrite ("q" +:+ nl) n] ++ evs2).
           split; [now rewrite Htr2, Htr, <- app_assoc |].
           split; [constructor; [exact I | exact Hq2] |].
           intros Hopen. inversion Hopen; subst. now rewrite Hodom2.
        -- destruct Hagain as (Hwhat & evs2 & Htr2 & Hq2). split.
           ++ destruct Hwhat as [-> | [-> Hm]]; [now left | right].
              split; [reflexivity | auto].
           ++ exists ([EvWrite ("q" +:+ nl) n] ++ evs2).
              split; [now rewrite Htr2, Htr, <- app_assoc |].
              constructor; [exact I | exact Hq2].
      * unfold ret. split; [split; [discriminate | repeat split] |].
        exists [EvWrite ("q" +:+ nl) n]. split; [exact Htr |].
        split; [repeat constructor | reflexivity].
    + destruct Hq as (-> & Hm & _ & n & Htr).
      split; [right; now split |].
      exists [EvWrite ("q" +:+ nl) n]. split; [exact Htr |].
      repeat constructor.
  - apply Hagain.
Qed.

Lemma send_velocity_post (vn vs turnRate : float) (fuel : nat) :
  forall (d : t) (w : World),
    match send_velocity fuel vn vs turnRate d w with
    | Ret d' _ => connected_as d d'
    | Throw what _ => what = gave_up
    | Undefined =>
        (128 <= String.length
                  (formatted (SetRelativeVelocity vn vs turnRate)))%nat
    | OutOfFuel => True
    end.
Proof.
  induction fuel as [| fuel IH]; intros d w; [exact I |].
  assert (Hagain : forall w0,
    match (d1 <- connect (robot_address_ d) (robot_port_ d) d ;;
           send_velocity fuel vn vs turnRate d1) w0 with
    | Ret d' _ => connected_as d d'
    | Throw what _ => what = gave_up
    | Undefined =>
        (128 <= String.length
                  (formatted (SetRelativeVelocity vn vs turnRate)))%nat
    | OutOfFuel => True
    end).
  { intros w0. unfold bind.
    pose proof (connect_ends (robot_address_ d) (robot_port_ d) d w0) as Hc.
    destruct (connect (robot_address_ d) (robot_port_ d) d w0)
      as [d1 w1 | what w1 | |]; try contradiction.
    - destruct Hc as (_ & Hs1 & _). specialize (IH d1 w1).
      destruct (send_velocity fuel vn vs turnRate d1 w1); try exact I;
        try exact IH.
      destruct IH as [Hlive Hs2].
      split; [exact Hlive | exact (same_setup_trans _ _ _ Hs1 Hs2)].
    - now destruct Hc as [-> _]. }
  cbn [send_velocity]. destruct (remote_ d) as [r |] eqn:Hr;
    [| apply Hagain].
  unfold bind at 1.
  pose proof (command_outcome (SetRelativeVelocity vn vs turnRate) w) as Hc.
  simpl run_command in Hc.
  destruct (Nav2Remote.setRelativeVelocity vn vs turnRate w)
    as [rc w1 | what w1 | |]; try contradiction; try exact Hc.
  destruct (rc <? 0); [apply Hagain |].
  unfold ret. split; [rewrite Hr; discriminate | repeat split].
Qed.

(** X9.  What the calls on the driver leave behind.  [connect] returns a
    driver that holds a connection and has the address, port, prefix and
    inversion flag it had, or throws "Failed to connect to Nav2 base",
    the exceptions of the client's constructor being caught; it has no
    other outcome.  A tick of the timer that returns, and a [setVelocity]
    that returns, leave the driver so as well.  A tick that throws has
    thrown that exception, or the [std::bad_alloc] of [readLine], which
    nothing catches, after an allocation failed; a [setVelocity] that
    throws has thrown that exception, and its behaviour is undefined only
    when the text of the command does not fit [msg].  The constructor of
    the driver returns connected with the parameters it was given, or
    throws that exception or the one for a missing address.  (In the
    worlds of the model, which are finite scripts, the bound of the
    loops is never reached; the loops of the program can go on for as
    long as connections are made and lost.) *)
Theorem driver_returns_connected_or_gives_up :
  (forall (address : string) (port : Z) (d : t) (w : World),
      match connect address port d w with
      | Ret d' _ => connected_as d d'
      | Throw what _ => what = gave_up
      | Undefined | OutOfFuel => False
      end)
  /\ (forall (d : t) (w : World),
         match tick d w with
         | Ret d' _ => connected_as d d'
         | Throw what _ =>
             what = gave_up \/ (what = bad_alloc /\ ~ memory_lasts w)
         | Undefined => True
         | OutOfFuel => False
         end)
  /\ (forall (atan2 pow : float -> float -> float) (twist : Twist) (d : t)
             (w : World),
         match setVelocity atan2 pow twist d w with
         | Ret d' _ => connected_as d d'
         | Throw what _ => what = gave_up
         | Undefined =>
             (128 <= String.length
                       (formatted
                          (SetRelativeVelocity
                             (atan2 (linear_y twist) (linear_x twist)
                              * (180 / M_PI))%float
                             (sqrt (pow (linear_x twist) 2
                                    + pow (linear_y twist) 2))%float
                             (angular_z twist))))%nat
         | OutOfFuel => False
         end)
  /\ (forall (p : Params) (w : World),
         match new p w with
         | Ret d _ =>
             remote_ d <> None
             /\ robot_address_ d = robot_address p
             /\ robot_port_ d = robot_port p
             /\ invert_odom_ d = invert_odom p
         | Throw what _ =>
             what = gave_up \/ what = "Please provide address for Nav2"
         | Undefined | OutOfFuel => False
         end).
Proof.
  split; [| split; [| split]].
  - intros address port d w.
    pose proof (connect_ends address port d w) as H.
    destruct (connect address port d w); try exact H.
    + destruct H as (Hlive & Hs & _). now split.
    + now destruct H as [-> _].
  - intros d w.
    pose proof (publishOdometry_ends (invert_odom_ d) (robot_prefix_ d) d w)
      as Hends.
    unfold tick in *. unfold publishOdometry in *.
    unfold bind at 1 in Hends. unfold bind at 1.
    pose proof (poll_position_post (S (length (net w))) origin d w) as H.
    destruct (poll_position (S (length (net w))) origin d w)
      as [[data d1] w1 | what w1 | |]; try exact I.
    + destruct H as (Hconn & _).
      destruct (updateWithAbsolute_ends data (base_odom_ d1) w1)
        as (o & w2 & Hup & _).
      unfold bind at 1. rewrite Hup. unfold bind, emit, ret. simpl.
      exact Hconn.
    + now destruct H as [H _].
    + now apply Hends.
  - intros atan2 pow twist d w. unfold setVelocity.
    pose proof (send_velocity_outcome
                  (atan2 (linear_y twist) (linear_x twist)
                   * (180 / M_PI))%float
                  (sqrt (pow (linear_x twist) 2
                         + pow (linear_y twist) 2))%float
                  (angular_z twist) (S (length (net w))) d w ltac:(lia))
      as Hends.
    pose proof (send_velocity_post
                  (atan2 (linear_y twist) (linear_x twist)
                   * (180 / M_PI))%float
                  (sqrt (pow (linear_x twist) 2
                         + pow (linear_y twist) 2))%float
                  (angular_z twist) (S (length (net w))) d w) as H.
    cbv zeta.
    destruct (send_velocity _ _ _ _ _ _); try exact H. exact Hends.
  - intros p w. unfold new. unfold bind at 1, BaseOdometry_new.
    unfold bind at 1, now, ret.
    destruct (String.eqb (robot_address p) EmptyString);
      [unfold throw; now right |].
    match goal with
    | |- context [connect ?a ?b ?d0 ?w0] =>
        pose proof (connect_ends a b d0 w0) as H;
        destruct (connect a b d0 w0); try contradiction
    end.
    + destruct H as (Hlive & (Ha & Hp & _ & Hi) & _). simpl in *. auto.
    + left. now destruct H as [-> _].
Qed.

(** X10.  A tick of the timer that returns has broadcast exactly one
    transform and then published exactly one odometry message, both taken
    from the integrator state it leaves, as the last two things it did; a
    tick that ends with an exception has published nothing.  (In the
    worlds of the model, which are finite scripts, the bound of the loop
    is never reached; the loop of the program can go on for as long as
    connections are made and lost.) *)
Theorem tick_publishes_once (d : t) (w : World) :
  match tick d w with
  | Ret d' w' =>
      exists evs,
        trace w'
        = trace w ++ evs
          ++ [EvTransform (getTransform (invert_odom_ d) (robot_prefix_ d)
                             (base_odom_ d'));
              EvPublish (getMessage (robot_prefix_ d) (base_odom_ d'))]
        /\ Forall unpublished evs
  | Throw _ w' =>
      exists evs, trace w' = trace w ++ evs /\ Forall unpublished evs
  | Undefined => True
  | OutOfFuel => False
  end.
Proof.
  pose proof (publishOdometry_ends (invert_odom_ d) (robot_prefix_ d) d w)
    as Hends.
  unfold tick in *. unfold publishOdometry in *. unfold bind at 1 in Hends.
  unfold bind at 1.
  pose proof (poll_position_post (S (length (net w))) origin d w) as H.
  destruct (poll_position (S (length (net w))) origin d w)
    as [[data d1] w1 | what w1 | |]; try exact I.
  - destruct H as (_ & evs & Htr & Hq & _).
    destruct (updateWithAbsolute_ends data (base_odom_ d1) w1)
      as (o & w2 & Hup & Htr2 & _).
    unfold bind at 1. rewrite Hup. unfold bind, emit, ret. simpl.
    exists evs. split; [| exact Hq].
    rewrite Htr2, Htr, <- !app_assoc. reflexivity.
  - destruct H as (_ & evs & Htr & Hq). now exists evs.
  - now apply Hends.
Qed.

(** X11.  The offset of the published pose changes only with a reconnect:
    a tick that closed no connection leaves [offset_] as it was. *)
Theorem offset_changes_only_on_reconnect (d d' : t) (w w' : World)
    (evs : list Event) :
  tick d w = Ret d' w' ->
  trace w' = trace w ++ evs ->
  Forall keeps_open evs ->
  offset_ (base_odom_ d') = offset_ (base_odom_ d).
Proof.
  unfold tick, publishOdometry. unfold bind at 1.
  pose proof (poll_position_post (S (length (net w))) origin d w) as H.
  destruct (poll_position (S (length (net w))) origin d w)
    as [[data d1] w1 | what w1 | |]; try discriminate.
  destruct H as (_ & evs1 & Htr & _ & Hodom).
  destruct (updateWithAbsolute_ends data (base_odom_ d1) w1)
    as (o & w2 & Hup & Htr2 & Hoff).
  unfold bind at 1. rewrite Hup. unfold bind, emit, ret. simpl.
  intros [= <- <-] Hevs Hopen. simpl in *.
  rewrite Htr2, Htr, <- !app_assoc in Hevs.
  apply app_inv_head in Hevs. subst evs.
  apply Forall_app in Hopen as [Hopen _].
  now rewrite Hoff, (Hodom Hopen).
Qed.

Lemma offset_changes_only_on_reconnect_witness :
  exists (d' : t) (w' : World),
    tick live (world (lines ["1 0 0 0"]) [] []) = Ret d' w'
    /\ offset_ (base_odom_ d') = offset_ (base_odom_ live).
Proof.
  eexists. eexists. split; [vm_compute; reflexivity |].
  eapply (offset_changes_only_on_reconnect live _
            (world (lines ["1 0 0 0"]) [] []));
    [vm_compute; reflexivity | simpl; reflexivity | repeat constructor].
Defined.

(** X14.  A tick whose answer line begins no number (it is blank, or its
    first word starts with a character that is no digit, no point and not
    the [i] or [n] of [inf] or [nan]) is taken as the sample (0,0,0):
    [data] starts at the origin and [estimatePosition] reports success
    without touching it, so the accumulated pose moves by the origin
    minus [prev_]. *)
Theorem tick_takes_blank_answer_as_origin (d : t) (r : Nav2Remote.t)
    (w : World) (l : list ascii) (rest : string) :
  remote_ d = Some r ->
  wf r ->
  memory_lasts w ->
  short_input w ->
  write_completes 2 w ->
  spec_filtered_line (rx w) = Some (l, rest) ->
  no_number (c_str (l ++ [NUL])) = true ->
  exists (d' : t) (w' : World),
    tick d w = Ret d' w'
    /\ pose_ (base_odom_ d')
       = add_assign (pose_ (base_odom_ d))
           (minus origin (prev_ (base_odom_ d)))
    /\ rx w' = rest.
Proof.
  intros Hlive Hwf Hmem Hshort Hwrite Hspec Hblank.
  destruct (estimatePosition_blank r w 0 0 0 l rest Hwf Hmem Hshort Hwrite
              Hspec Hblank)
    as (r' & w1 & Hq & _ & Hrx & _).
  unfold tick, publishOdometry. unfold bind at 1.
  cbn [poll_position]. rewrite Hlive. unfold bind at 1.
  change (Nav2Remote.estimatePosition r (x origin) (y origin) (th origin) w)
    with (Nav2Remote.estimatePosition r 0 0 0 w).
  rewrite Hq. cbn [Z.ltb Z.compare]. unfold ret at 1.
  unfold bind at 1. rewrite updateWithAbsolute_unfold.
  match goal with
  | |- context [updateWithRelative ?delta ?o w1] =>
      destruct (updateWithRelative_returns delta o w1)
        as (t1 & t2 & w2 & Hup);
      assert (Hw2 : rx w2 = rx w1)
        by exact (eq_sym
                    (f_equal (fun out : outcome BaseOdometry =>
                                match out with
                                | Ret _ w0 => rx w0
                                | _ => EmptyString
                                end) Hup))
  end.
  rewrite Hup. unfold bind, emit, ret. simpl.
  do 2 eexists. split; [reflexivity |]. simpl.
  split; [reflexivity | congruence].
Qed.

Lemma tick_takes_blank_answer_as_origin_witness :
  exists (d' : t) (w' : World),
    tick live (world (lines ["ok"; "1 0 0 0"]) [] []) = Ret d' w'
    /\ pose_ (base_odom_ d')
       = add_assign (pose_ (base_odom_ live))
           (minus origin (prev_ (base_odom_ live)))
    /\ rx w' = lines ["1 0 0 0"].
Proof.
  apply (tick_takes_blank_answer_as_origin live fresh
           (world (lines ["ok"; "1 0 0 0"]) [] [])
           (list_ascii_of_string "ok") (lines ["1 0 0 0"]));
    [ reflexivity | reflexivity | constructor
    | unfold short_input, int_max; simpl; lia | left; reflexivity
    | reflexivity | reflexivity ].
Defined.

End DriverMore.


(** ** Waiting for the queue *)

Section WaitMore.
Import CLib Sys Ref Cover.

(** One poll of the queue: one [write] of the request, no input given
    back, and an answer other than -1 only after a complete write. *)
Lemma getQueueSize_poll (r r' : Nav2Remote.t) (w w' : World) (rc : Z) :
  wf r ->
  Nav2Remote.getQueueSize r w = Ret (rc, r') w' ->
  wf r'
  /\ (String.length (rx w') <= String.length (rx w))%nat
  /\ exists n : Z,
       trace w' = trace w ++ [EvWrite ("q" +:+ nl) n] /\ (0 <= rc -> n = 2).
Proof.
  intros Hwf H.
  pose proof (getQueueSize_frame r w) as Hf. rewrite H in Hf.
  destruct Hf as (Hle & _ & n & Htr & Hn).
  split; [| split; [exact Hle | exists n; split; [exact Htr |];
                    intros Hrc; now apply Hn]].
  revert H. unfold Nav2Remote.getQueueSize. unfold bind at 1.
  destruct (sys_write_spec ("q" +:+ nl) w) as (m & w1 & -> & _).
  destruct (negb (m =? 2)); [unfold ret; now intros [= _ <- _] |].
  unfold bind at 1. pose proof (readLine_spec r w1 Hwf) as Hr.
  destruct (Nav2Remote.readLine r w1) as [[rc1 r1] w2 | | |];
    try discriminate.
  destruct Hr as [Hwf1 _].
  destruct (rc1 <? 0);
    [| destruct (f4 _) as [q |]; [destruct (fits_int q) |]];
    unfold ret, undefined; try discriminate; now intros [= _ <- _].
Qed.

Lemma wait_loop_shape (fuel : nat) :
  forall (r r' : Nav2Remote.t) (w w' : World) (rc : Z),
    wf r ->
    Nav2Remote.wait_loop fuel r w = Ret (rc, r') w' ->
    rc < 1 /\ wf r'
    /\ exists (k : nat) (n : Z),
         trace w' = trace w ++ busy_polls k ++ [EvWrite ("q" +:+ nl) n]
         /\ (k + String.length (rx w') <= String.length (rx w))%nat.
Proof.
  induction fuel as [| fuel IH]; intros r r' w w' rc Hwf H;
    [discriminate |].
  rewrite wait_loop_step in H.
  destruct (Nav2Remote.getQueueSize r w) as [[rc1 r1] w1 | | |] eqn:E;
    try discriminate.
  destruct (getQueueSize_poll _ _ _ _ _ Hwf E) as (Hwf1 & Hle & n & Htr & Hn).
  destruct (Z.ltb_spec rc1 1) as [Hrc | Hrc].
  - injection H as <- <- <-. split; [exact Hrc |]. split; [exact Hwf1 |].
    exists 0%nat, n. split; [exact Htr | simpl; lia].
  - pose proof (getQueueSize_consumes _ _ _ _ _ E Hrc) as Hlt.
    destruct (IH _ _ _ _ _ Hwf1 H) as (Hlast & Hwf' & k & n' & Htr' & Hk).
    split; [exact Hlast |]. split; [exact Hwf' |].
    exists (S k), n'. split; [| simpl in Hk; lia].
    rewrite Htr'. simpl trace. rewrite Htr, (Hn ltac:(lia)).
    change (busy_polls (S k))
      with ([EvWrite ("q" +:+ nl) 2; EvUsleep 100000] ++ busy_polls k).
    rewrite <- !app_assoc. reflexivity.
Qed.

(** X12.  A call of [wait] that returns gives a value below 1, and what it
    did is some number of polls that each wrote [q] in full and were each
    followed by one sleep of 100 ms, then one last poll and no sleep; there
    are no more sleeps than bytes were taken from the input. *)
Theorem wait_sleeps_between_polls (r r' : Nav2Remote.t) (w w' : World)
    (rc : Z) :
  wf r ->
  Nav2Remote.wait r w = Ret (rc, r') w' ->
  rc < 1 /\ wf r'
  /\ exists (k : nat) (n : Z),
       trace w' = trace w ++ busy_polls k ++ [EvWrite ("q" +:+ nl) n]
       /\ (k + String.length (rx w') <= String.length (rx w))%nat.
Proof.
  intros Hwf H. exact (wait_loop_shape _ r r' w w' rc Hwf H).
Qed.

Lemma wait_sleeps_between_polls_witness :
  exists (r' : Nav2Remote.t) (w' : World),
    Nav2Remote.wait fresh (world (lines ["0 0 0 2"; "0 0 0 0"]) [] [])
    = Ret (0, r') w'
    /\ exists (k : nat) (n : Z),
         trace w' = busy_polls k ++ [EvWrite ("q" +:+ nl) n]
         /\ (k + String.length (rx w') <= 16)%nat.
Proof.
  eexists. eexists. split; [vm_compute; reflexivity |].
  eapply (wait_sleeps_between_polls fresh _
            (world (lines ["0 0 0 2"; "0 0 0 0"]) [] []));
    [reflexivity | vm_compute; reflexivity].
Defined.

End WaitMore.

(** ** The text of the commands *)

Section CommandsMore.
Import CLib Sys Ref Cover.

Lemma no_LF_app (a b : string) : no_LF (a +:+ b) = no_LF a && no_LF b.
Proof.
  induction a as [| ch a IH]; [reflexivity |].
  change (negb (Ascii.eqb ch LF) && no_LF (a +:+ b)
          = negb (Ascii.eqb ch LF) && no_LF a && no_LF b).
  rewrite IH. now destruct (negb (Ascii.eqb ch LF)), (no_LF a).
Qed.

Lemma no_LF_dec_of_Z (n : Z) : no_LF (dec_of_Z n) = true.
Proof.
  unfold dec_of_Z, NilZero.string_of_uint.
  assert (H : forall d, no_LF (NilEmpty.string_of_uint d) = true)
    by (induction d; simpl; auto).
  destruct (N.to_uint (Z.to_N n)) eqn:E; try reflexivity;
    rewrite <- E; apply H.
Qed.

Lemma no_LF_zero_pad (width : nat) (s : string) :
  no_LF s = true -> no_LF (zero_pad width s) = true.
Proof.
  intros Hs. induction width as [| width IH]; cbn [zero_pad].
  - now destruct (0 <=? String.length s)%nat.
  - destruct (S width <=? String.length s)%nat; [exact Hs | exact IH].
Qed.

(** [%lf] prints no line feed. *)
Lemma no_LF_printf_lf (v : float) : no_LF (printf_lf v) = true.
Proof.
  assert (Hfix : forall p scaled, no_LF (fixed_digits p scaled) = true).
  { intros p scaled. unfold fixed_digits.
    rewrite !no_LF_app, no_LF_dec_of_Z, no_LF_zero_pad
      by apply no_LF_dec_of_Z.
    reflexivity. }
  unfold printf_lf, printf_f.
  destruct (Prim2SF v) as [s | s | | s m e]; try reflexivity;
    rewrite no_LF_app; try rewrite Hfix; now destruct s.
Qed.

Lemma send_returns (text : string) (w w' : World) (rc : Z) :
  Nav2Remote.send text w = Ret rc w' ->
  (String.length text < 128)%nat
  /\ exists n : Z, trace w' = trace w ++ [EvWrite text n].
Proof.
  unfold Nav2Remote.send, undefined, bind, sys_write, ret.
  destruct (Nat.leb_spec 128 (String.length text)) as [| Hlen];
    [discriminate |].
  intros Hret. split; [exact Hlen |].
  destruct (wr w) as [| n wrs]; injection Hret as _ <-; now eexists.
Qed.

(** X13.  Every command that returns has made one [write], of one line:
    the verb of the command, then its arguments, in which there is no
    line feed, then the line feed; with it the text is shorter than the
    128 bytes of [msg]. *)
Theorem command_writes_one_line (c : Command) (w w' : World) (rc : Z) :
  run_command c w = Ret rc w' ->
  exists (args : string) (n : Z),
    trace w' = trace w ++ [EvWrite (verb c +:+ args +:+ nl) n]
    /\ no_LF (verb c +:+ args) = true
    /\ (String.length (verb c +:+ args +:+ nl) < 128)%nat.
Proof.
  assert (Hsend : forall v args,
    no_LF (v +:+ args) = true ->
    Nav2Remote.send (v +:+ args +:+ nl) w = Ret rc w' ->
    exists n : Z,
      trace w' = trace w ++ [EvWrite (v +:+ args +:+ nl) n]
      /\ no_LF (v +:+ args) = true
      /\ (String.length (v +:+ args +:+ nl) < 128)%nat).
  { intros v args Hline H. apply send_returns in H as (Hlen & n & Htr).
    now exists n. }
  assert (Hargs : forall v args text,
    text = v +:+ args +:+ nl ->
    no_LF (v +:+ args) = true ->
    Nav2Remote.send text w = Ret rc w' ->
    exists (args : string) (n : Z),
      trace w' = trace w ++ [EvWrite (v +:+ args +:+ nl) n]
      /\ no_LF (v +:+ args) = true
      /\ (String.length (v +:+ args +:+ nl) < 128)%nat).
  { intros v args text -> Hline H. exists args. now apply Hsend. }
  destruct c as [o | vx vy | vx vy t | x y o | | a | a | d a | d | d | v | v
                | v]; simpl run_command; simpl verb;
    unfold Nav2Remote.setTargetOrientation, Nav2Remote.setAbsoluteVelocity,
      Nav2Remote.setRelativeVelocity, Nav2Remote.setPosition,
      Nav2Remote.turnRight, Nav2Remote.turnLeft, Nav2Remote.back,
      Nav2Remote.forward, Nav2Remote.move, Nav2Remote.setMaxSpeed,
      Nav2Remote.setMaxAccel, Nav2Remote.setMaxCorneringError.
  5: { unfold Nav2Remote.stop, bind, sys_write, ret. intros H.
       exists EmptyString. simpl.
       destruct (wr w) as [| n wrs]; injection H as _ <-; eexists;
         (split; [reflexivity | split; [reflexivity | lia]]). }
  - apply (Hargs "o" (" " +:+ printf_lf o));
      [reflexivity
      | now rewrite !no_LF_app, !no_LF_printf_lf].
  - apply (Hargs "av" (" " +:+ printf_lf vx +:+ " " +:+ printf_lf vy));
      [now rewrite !append_assoc_s
      | now rewrite !no_LF_app, !no_LF_printf_lf].
  - apply (Hargs "v" (" " +:+ printf_lf vx +:+ " " +:+ printf_lf vy +:+ " "
                      +:+ printf_lf (t * Nav2Remote.deg_per_rad)));
      [now rewrite !append_assoc_s
      | now rewrite !no_LF_app, !no_LF_printf_lf].
  - apply (Hargs "p" (" " +:+ printf_lf x +:+ " " +:+ printf_lf y +:+ " "
                      +:+ printf_lf (o * Nav2Remote.deg_per_rad)));
      [now rewrite !append_assoc_s
      | now rewrite !no_LF_app, !no_LF_printf_lf].
  - apply (Hargs "lt" (" " +:+ printf_lf (a * Nav2Remote.deg_per_rad)));
      [reflexivity | now rewrite !no_LF_app, !no_LF_printf_lf].
  - apply (Hargs "lt" (" " +:+ printf_lf (- a * Nav2Remote.deg_per_rad)));
      [reflexivity | now rewrite !no_LF_app, !no_LF_printf_lf].
  - apply (Hargs "mv" (" " +:+ printf_lf d +:+ " "
                       +:+ printf_lf (a * Nav2Remote.deg_per_rad)));
      [now rewrite !append_assoc_s
      | now rewrite !no_LF_app, !no_LF_printf_lf].
  - apply (Hargs "mv" (" " +:+ printf_lf d +:+ " "
                       +:+ printf_lf (0 * Nav2Remote.deg_per_rad)));
      [now rewrite !append_assoc_s
      | now rewrite !no_LF_app, !no_LF_printf_lf].
  - apply (Hargs "mv" (" " +:+ printf_lf (- d) +:+ " "
                       +:+ printf_lf (0 * Nav2Remote.deg_per_rad)));
      [now rewrite !append_assoc_s
      | now rewrite !no_LF_app, !no_LF_printf_lf].
  - apply (Hargs "sms" (" " +:+ printf_lf v));
      [reflexivity | now rewrite !no_LF_app, !no_LF_printf_lf].
  - apply (Hargs "sma" (" " +:+ printf_lf v));
      [reflexivity | now rewrite !no_LF_app, !no_LF_printf_lf].
  - apply (Hargs "smce" (" " +:+ printf_lf v));
      [reflexivity | now rewrite !no_LF_app, !no_LF_printf_lf].
Qed.

Lemma command_writes_one_line_witness :
  exists (rc : Z) (w' : World),
    run_command (Move 2 0.5) (world EmptyString [] []) = Ret rc w'
    /\ exists (args : string) (n : Z),
         trace w' = [EvWrite ("mv" +:+ args +:+ nl) n]
         /\ no_LF ("mv" +:+ args) = true
         /\ (String.length ("mv" +:+ args +:+ nl) < 128)%nat.
Proof.
  eexists. eexists. split; [vm_compute; reflexivity |].
  eapply (command_writes_one_line (Move 2 0.5) (world EmptyString [] [])).
  vm_compute. reflexivity.
Defined.

End CommandsMore.
